(** * Relay switcher: a shallow embedding of [relay_switcher.py]

    The script drives the relays of an ESP32 over HTTP: it builds a JSON
    command, posts it, sleeps, polls the status endpoint and prints.  The
    embedding keeps the script's functions and their control flow.  What the
    script obtains from outside (the replies of the device, the wall clock,
    operator interrupts, the interpreter's Unicode tables) is supplied by a
    [World]; what it does to the
    outside (network calls, waits, lines on standard output) is recorded,
    in order, as a list of events. *)

From Stdlib Require Import String Ascii List ZArith Lia Bool Arith.
From Stdlib Require Import Floats.SpecFloat DecimalString.
Import ListNotations.
Open Scope string_scope.
Set Warnings "-register-all".

(** ** Configuration *)

Definition ESP32_IP : string := "192.168.29.75".
Definition API_KEY : string := "Automate@123".
Definition BASE_URL : string := "http://" ++ ESP32_IP.
Definition SWITCH_INTERVAL : nat := 5.

Definition APPLIANCES : list string :=
  ["Filter"; "CO2"; "Light"; "Heater"; "HangOnFilter"; "WaveMaker"].

(** ANSI colour codes; ['\033'] is the escape character. *)
Module Colors.
Definition esc : string := String (ascii_of_nat 27) "".
Definition GREEN : string := esc ++ "[92m".
Definition YELLOW : string := esc ++ "[93m".
Definition RED : string := esc ++ "[91m".
Definition BLUE : string := esc ++ "[94m".
Definition CYAN : string := esc ++ "[96m".
Definition RESET : string := esc ++ "[0m".
Definition BOLD : string := esc ++ "[1m".
End Colors.
Import Colors.

Definition LF : string := String (ascii_of_nat 10) "".

(** ** Python values

    The values the script handles dynamically are the ones [response.json()]
    returns.  A float is a binary64 datum in the Standard Library's
    [spec_float]; an object is kept as the list of its members, looked up
    from the front. *)

Inductive value :=
| JNull
| JBool (b : bool)
| JInt (n : Z)
| JFloat (f : spec_float)
| JStr (s : string)
| JArr (items : list value)
| JObj (members : list (string * value)).

(** Truth value of an object, as [if status:] and [not status_data] take it. *)
Definition truthy (v : value) : bool :=
  match v with
  | JNull => false
  | JBool b => b
  | JInt n => negb (n =? 0)%Z
  | JFloat (S754_zero _) => false
  | JFloat _ => true
  | JStr s => negb (s =? "")
  | JArr items => match items with [] => false | _ => true end
  | JObj members => match members with [] => false | _ => true end
  end.

Fixpoint lookup (key : string) (members : list (string * value)) : option value :=
  match members with
  | [] => None
  | (k, v) :: rest => if k =? key then Some v else lookup key rest
  end.

Definition value_eq_str (v : value) (s : string) : bool :=
  match v with
  | JStr t => t =? s
  | _ => false
  end.

(** [needle in hay] on strings. *)
Definition substring_of (needle hay : string) : bool :=
  match index 0 needle hay with
  | Some _ => true
  | None => false
  end.

(** The float literal [-127.0]: sign, 53-bit mantissa and exponent. *)
Definition minus_127_0 : spec_float := S754_finite true 8936830510563328 (-46).

(** [n == f] for an int and a float compares the exact values. *)
Definition int_eq_float (n : Z) (f : spec_float) : bool :=
  match f with
  | S754_zero _ => (n =? 0)%Z
  | S754_finite s m e =>
      let signed := if s then Z.neg m else Z.pos m in
      if (0 <=? e)%Z then (n =? signed * 2 ^ e)%Z
      else (n * 2 ^ (- e) =? signed)%Z
  | _ => false
  end.

(** [v == f] where [f] is a float. *)
Definition py_eq_float (v : value) (f : spec_float) : bool :=
  match v with
  | JFloat g => SFeqb g f
  | JInt n => int_eq_float n f
  | JBool b => int_eq_float (if b then 1 else 0)%Z f
  | _ => false
  end.

(** [float(n)] for an int rounds to the nearest binary64 and raises
    [OverflowError] when that is beyond the largest one, [2^1024 - 2^971]:
    from the midpoint [2^1024 - 2^970] on, in either sign. *)
Definition float_overflows (n : Z) : bool := (2 ^ 1024 - 2 ^ 970 <=? Z.abs n)%Z.

(** [isinstance(v, (int, float))]; [bool] is a subclass of [int]. *)
Definition is_int_or_float (v : value) : bool :=
  match v with
  | JInt _ | JFloat _ | JBool _ => true
  | _ => false
  end.

(** ** Formatted text

    An f-string is kept as its sequence of literal parts and replacement
    fields.  Fields that hold a string or a small counter are expanded in
    place; a field that formats a [value] stays a field, [{v}] as [Show v]
    and [{v:.1f}] as [Fixed1 v], since the digits are the interpreter's
    business.  Whether the field can be formatted at all is not: see
    [format_fixed1]. *)

Inductive piece :=
| Lit (s : string)
| Show (v : value)
| Fixed1 (v : value).

Definition text := list piece.

Definition str_nat (n : nat) : string := NilZero.string_of_uint (Nat.to_uint n).

Fixpoint str_mul (s : string) (n : nat) : string :=
  match n with
  | 0 => ""
  | S k => s ++ str_mul s k
  end.

Definition join (sep : string) (parts : list string) : string := String.concat sep parts.

(** A [str] is kept as the bytes of its UTF-8 encoding, so it is made of
    ASCII characters alone exactly when every byte is below 128. *)
Fixpoint is_ascii (s : string) : bool :=
  match s with
  | EmptyString => true
  | String c rest => (nat_of_ascii c <? 128)%nat && is_ascii rest
  end.

(** What [str.lower] does to an ASCII character: the letters A-Z go to
    a-z, everything else stays. *)
Definition lower_ascii (c : ascii) : ascii :=
  let n := nat_of_ascii c in
  if ((65 <=? n) && (n <=? 90))%nat then ascii_of_nat (n + 32) else c.

Fixpoint fold_ascii (s : string) : string :=
  match s with
  | EmptyString => EmptyString
  | String c rest => String (lower_ascii c) (fold_ascii rest)
  end.

(** ** Command payloads *)

Inductive Action := ON | OFF.

Record entry := {
  name : string;
  action : Action;
  timeout_minutes : nat
}.

(** The list under the key ["appliances"] of the posted JSON body. *)
Definition payload := list entry.

Definition Action_eqb (a b : Action) : bool :=
  match a, b with
  | ON, ON | OFF, OFF => true
  | _, _ => false
  end.

Definition is_on (e : entry) : bool := Action_eqb (action e) ON.

(** The comprehension of [turn_all_off]. *)
Definition all_off_payload : payload :=
  map (fun appliance => {| name := appliance; action := OFF; timeout_minutes := 5 |})
      APPLIANCES.

(** The comprehension of [turn_on_single]. *)
Definition single_on_payload (appliance_name : string) : payload :=
  map (fun appliance =>
         {| name := appliance;
            action := if appliance =? appliance_name then ON else OFF;
            timeout_minutes := 5 |})
      APPLIANCES.

(** ** The outside world *)

(** What [requests.post] does: it returns a response or raises.  The
    exceptions are told apart the way the [except] clauses of
    [send_control_command] tell them apart: a [ConnectionError], a
    [Timeout], any other [Exception] (with its [str(e)]), and the
    [KeyboardInterrupt] of an operator who presses Ctrl+C while the request
    is in flight, which is no [Exception]. *)
Inductive post_result :=
| Response (status_code : nat) (body : string)
| RaisesConnectionError
| RaisesTimeout
| RaisesException (str_e : string)
| RaisesKeyboardInterrupt.

(** What [requests.get] followed by [response.json()] does.  [json = None]
    stands for a body that does not parse. *)
Inductive get_result :=
| StatusResponse (status_code : nat) (json : option value)
| GetRaisesException
| GetRaisesKeyboardInterrupt.

(** What [time.sleep] does. *)
Inductive sleep_result := Elapsed | SleepInterrupted.

(** The [n]-th call of each kind gets the [n]-th answer.  The operator's
    interrupt is delivered where the script spends its time: in
    [time.sleep] and in the two requests.  [unicode_lower] is [str.lower]
    on the strings that are not all ASCII, where the case tables of the
    interpreter decide (the Kelvin sign lowers to [k], a capital sigma by
    its place in the word); nothing is assumed of it. *)
Record World := {
  strftime_now : nat -> string;
  post_reply : nat -> post_result;
  get_reply : nat -> get_result;
  sleep_reply : nat -> sleep_result;
  unicode_lower : string -> string
}.

(** What a run does to the outside, with what came back: [print(t, end=end_)],
    a POST to [/control], a GET of [/status], a [time.sleep]. *)
Inductive event :=
| Stdout (t : text) (end_ : string)
| Control (p : payload) (r : post_result)
| Status (r : get_result)
| Sleep (seconds : nat) (r : sleep_result).

(** The exceptions that travel through the script. *)
Inductive exn :=
| KeyboardInterrupt
| SystemExit (code : nat)
| TypeError
| KeyError
| AttributeError
| OverflowError.

(** How a computation ends: it returns, it raises, or the bound put on
    its [while True] is used up. *)
Inductive outcome (A : Type) :=
| Ret (a : A)
| Raise (e : exn)
| OutOfFuel.
Arguments Ret {A} a.
Arguments Raise {A} e.
Arguments OutOfFuel {A}.

(** Calls made so far, and the loop counter of the running mode. *)
Record store := {
  posts : nat;
  gets : nat;
  sleeps : nat;
  cycle_count : nat
}.

Definition init : store := {| posts := 0; gets := 0; sleeps := 0; cycle_count := 0 |}.

(** A computation: from a store to an outcome, the store after, and the
    events it caused. *)
Definition M (A : Type) : Type := store -> outcome A * store * list event.

Definition ret {A} (a : A) : M A := fun s => (Ret a, s, []).

Definition bind {A B} (m : M A) (k : A -> M B) : M B :=
  fun s =>
    match m s with
    | (Ret a, s1, t1) =>
        match k a s1 with
        | (r, s2, t2) => (r, s2, (t1 ++ t2)%list)
        end
    | (Raise e, s1, t1) => (Raise e, s1, t1)
    | (OutOfFuel, s1, t1) => (OutOfFuel, s1, t1)
    end.

Definition raise {A} (e : exn) : M A := fun s => (Raise e, s, []).

Definition out_of_fuel {A} : M A := fun s => (OutOfFuel, s, []).

Declare Scope m_scope.
Delimit Scope m_scope with M.
Notation "x <- m ;; k" := (bind m (fun x => k))
  (at level 61, m at next level, right associativity) : m_scope.
Notation "m ;; k" := (bind m (fun _ => k))
  (at level 61, right associativity) : m_scope.
Open Scope m_scope.

(** [try: m  except KeyboardInterrupt: handler]. *)
Definition try_except_KeyboardInterrupt {A} (m handler : M A) : M A :=
  fun s =>
    match m s with
    | (Raise KeyboardInterrupt, s1, t1) =>
        match handler s1 with
        | (r, s2, t2) => (r, s2, (t1 ++ t2)%list)
        end
    | other => other
    end.

Inductive flow := Next | Break.

(** [while True: body], cut off after [fuel] iterations. *)
Fixpoint while_true (fuel : nat) (body : M flow) : M unit :=
  match fuel with
  | 0 => out_of_fuel
  | S fuel' =>
      f <- body ;;
      match f with
      | Break => ret tt
      | Next => while_true fuel' body
      end
  end.

Definition emit (e : event) : M unit := fun s => (Ret tt, s, [e]).

Definition print_text (t : text) : M unit := emit (Stdout t LF).
Definition print (s : string) : M unit := print_text [Lit s].
Definition print_end (s : string) (end_ : string) : M unit := emit (Stdout [Lit s] end_).

Definition set_cycle_count (n : nat) : M unit :=
  fun s => (Ret tt, {| posts := posts s; gets := gets s; sleeps := sleeps s;
                       cycle_count := n |}, []).

Definition get_cycle_count : M nat := fun s => (Ret (cycle_count s), s, []).

Definition sys_exit {A} (code : nat) : M A := raise (SystemExit code).

(** [x in xs] for a string and a list of strings. *)
Definition in_list (x : string) (xs : list string) : bool := existsb (String.eqb x) xs.

(** ** Operations on dynamic values that can raise *)

(** [key in container]. *)
Definition py_in (key : string) (container : value) : M bool :=
  match container with
  | JObj members => ret (match lookup key members with Some _ => true | None => false end)
  | JArr items => ret (existsb (fun v => value_eq_str v key) items)
  | JStr s => ret (substring_of key s)
  | _ => raise TypeError
  end.

(** [container.get(key, default)]: only a dict has the method. *)
Definition py_get (container : value) (key : string) (default : value) : M value :=
  match container with
  | JObj members => ret (match lookup key members with Some v => v | None => default end)
  | _ => raise AttributeError
  end.

(** [container[key]] with a string key. *)
Definition py_getitem (container : value) (key : string) : M value :=
  match container with
  | JObj members =>
      match lookup key members with
      | Some v => ret v
      | None => raise KeyError
      end
  | _ => raise TypeError
  end.

(** ** The script *)

Section Script.

Variable w : World.

Definition datetime_now_strftime : M string :=
  fun s => (Ret (strftime_now w (posts s)), s, []).

(** [requests.post(f"{BASE_URL}/control", json=payload, headers=headers, timeout=10)] *)
Definition requests_post (p : payload) : M post_result :=
  fun s =>
    let r := post_reply w (posts s) in
    (Ret r,
     {| posts := S (posts s); gets := gets s; sleeps := sleeps s;
        cycle_count := cycle_count s |},
     [Control p r]).

(** [requests.get(f"{BASE_URL}/status", headers=headers, timeout=10)] and,
    on a response, [response.json()]. *)
Definition requests_get : M get_result :=
  fun s =>
    let r := get_reply w (gets s) in
    (Ret r,
     {| posts := posts s; gets := S (gets s); sleeps := sleeps s;
        cycle_count := cycle_count s |},
     [Status r]).

(** [time.sleep(seconds)] *)
Definition time_sleep (seconds : nat) : M unit :=
  fun s =>
    let r := sleep_reply w (sleeps s) in
    (match r with
     | Elapsed => Ret tt
     | SleepInterrupted => Raise KeyboardInterrupt
     end,
     {| posts := posts s; gets := gets s; sleeps := S (sleeps s);
        cycle_count := cycle_count s |},
     [Sleep seconds r]).

Definition print_header : M unit :=
  print (LF ++ BOLD ++ CYAN ++ str_mul "=" 60 ++ RESET) ;;
  print (BOLD ++ CYAN ++ "   ESP32 Relay Switcher - Diagnostic Tool" ++ RESET) ;;
  print (BOLD ++ CYAN ++ str_mul "=" 60 ++ RESET ++ LF) ;;
  print (YELLOW ++ "Target ESP32:" ++ RESET ++ " " ++ ESP32_IP) ;;
  print (YELLOW ++ "Switch Interval:" ++ RESET ++ " " ++ str_nat SWITCH_INTERVAL ++ " seconds") ;;
  print (YELLOW ++ "Appliances:" ++ RESET ++ " " ++ join ", " APPLIANCES ++ LF).

Definition send_control_command (p : payload) (description : string) : M bool :=
  timestamp <- datetime_now_strftime ;;
  print_end ("[" ++ BLUE ++ timestamp ++ RESET ++ "] " ++ description ++ "...") " " ;;
  response <- requests_post p ;;
  match response with
  | Response status_code body =>
      if (status_code =? 200)%nat then
        print (GREEN ++ "✓ Success" ++ RESET) ;;
        ret true
      else
        print (RED ++ "✗ Failed (Status: " ++ str_nat status_code ++ ")" ++ RESET) ;;
        print ("  Response: " ++ body) ;;
        ret false
  | RaisesConnectionError =>
      print (RED ++ "✗ Connection Error" ++ RESET) ;;
      print ("  " ++ YELLOW ++ "Cannot connect to " ++ ESP32_IP ++ RESET) ;;
      print ("  " ++ YELLOW ++ "Check ESP32 IP address and network connection" ++ RESET) ;;
      ret false
  | RaisesTimeout =>
      print (RED ++ "✗ Timeout" ++ RESET) ;;
      ret false
  | RaisesException str_e =>
      print (RED ++ "✗ Error: " ++ str_e ++ RESET) ;;
      ret false
  | RaisesKeyboardInterrupt => raise KeyboardInterrupt
  end.

Definition turn_all_off : M bool :=
  send_control_command all_off_payload "All OFF".

Definition turn_on_single (appliance_name : string) : M bool :=
  send_control_command (single_on_payload appliance_name) (appliance_name ++ " ON").

(** The bare [except:] takes every exception, the operator's interrupt too. *)
Definition get_status : M value :=
  response <- requests_get ;;
  match response with
  | StatusResponse status_code json =>
      if (status_code =? 200)%nat then
        match json with
        | Some data => ret data
        | None => ret JNull
        end
      else ret JNull
  | GetRaisesException => ret JNull
  | GetRaisesKeyboardInterrupt => ret JNull
  end.

(** The field [{temp:.1f}] of an int or a float.  An int is converted by
    [float(temp)] first, which raises for one that is too large; a float
    and a bool always format. *)
Definition format_fixed1 (temp : value) : M piece :=
  match temp with
  | JInt n => if float_overflows n then raise OverflowError else ret (Fixed1 temp)
  | _ => ret (Fixed1 temp)
  end.

(** The [if]/[elif]/[else] that builds [temp_str]. *)
Definition temp_str (temp : value) : M text :=
  if py_eq_float temp minus_127_0 then
    ret [Lit RED; Show temp; Lit ("°C (SENSOR ERROR!)" ++ RESET)]
  else if is_int_or_float temp then
    reading <- format_fixed1 temp ;;
    ret [Lit CYAN; reading; Lit ("°C" ++ RESET)]
  else
    ret [Show temp; Lit "°C"].

(** The body of [for name in APPLIANCES] in [display_status], collecting
    [states]. *)
Fixpoint collect_states (appliances : value) (names : list string) : M (list string) :=
  match names with
  | [] => ret []
  | name :: rest =>
      present <- py_in name appliances ;;
      line <- (if present then
                 item <- py_getitem appliances name ;;
                 state <- py_getitem item "state" ;;
                 mode <- py_get item "mode" (JStr "UNKNOWN") ;;
                 if value_eq_str state "ON" then
                   if (name =? "Heater") && value_eq_str mode "TEMP_CONTROLLED" then
                     ret (GREEN ++ name ++ ": ON" ++ RESET ++ " " ++ YELLOW ++ "(TEMP)⚠" ++ RESET)
                   else
                     ret (GREEN ++ name ++ ": ON" ++ RESET)
                 else
                   ret (name ++ ": OFF")
               else
                 ret (name ++ ": ?")) ;;
      states <- collect_states appliances rest ;;
      ret (line :: states)
  end.

Definition display_status (status_data : value) : M unit :=
  missing <- (if negb (truthy status_data) then ret true
              else present <- py_in "appliances" status_data ;; ret (negb present)) ;;
  if (missing : bool) then ret tt
  else
    temp <- py_get status_data "temperature_celsius" (JStr "N/A") ;;
    temp_str <- temp_str temp ;;
    print_text (Lit "  Temperature: " :: temp_str) ;;
    appliances <- py_getitem status_data "appliances" ;;
    states <- collect_states appliances APPLIANCES ;;
    print ("  Current: " ++ join " | " states).

(** The three lines [status = get_status()], [if status:],
    [display_status(status)], which the script repeats after each command. *)
Definition poll_status : M unit :=
  status <- get_status ;;
  if truthy status then display_status status else ret tt.

(** The body of [for i, appliance in enumerate(APPLIANCES, 1)]. *)
Fixpoint test_each (i : nat) (appliances : list string) : M unit :=
  match appliances with
  | [] => ret tt
  | appliance :: rest =>
      print (LF ++ BOLD ++ "[" ++ str_nat i ++ "/" ++ str_nat (length APPLIANCES) ++ "]"
                ++ RESET ++ " Testing " ++ CYAN ++ appliance ++ RESET) ;;
      ok <- turn_on_single appliance ;;
      (if negb ok then
         print (YELLOW ++ "  Skipping to next appliance..." ++ RESET) ;;
         time_sleep 1
       else
         time_sleep 1 ;;
         poll_status ;;
         print ("  " ++ YELLOW ++ "Waiting " ++ str_nat SWITCH_INTERVAL ++ " seconds..." ++ RESET) ;;
         time_sleep SWITCH_INTERVAL) ;;
      test_each (S i) rest
  end.

Definition run_test_cycle : M bool :=
  print (LF ++ BOLD ++ "Starting test cycle..." ++ RESET ++ LF) ;;
  ok <- turn_all_off ;;
  if negb ok then
    print (LF ++ RED ++ "Failed to initialize. Check connection and try again." ++ RESET ++ LF) ;;
    ret false
  else
    time_sleep 1 ;;
    poll_status ;;
    time_sleep 2 ;;
    test_each 1 APPLIANCES ;;
    print (LF ++ BOLD ++ "Finishing test cycle..." ++ RESET ++ LF) ;;
    turn_all_off ;;
    time_sleep 1 ;;
    poll_status ;;
    ret true.

(** [cycle_count += 1] *)
Definition incr_cycle_count : M unit :=
  n <- get_cycle_count ;;
  set_cycle_count (n + 1).

(** The handler both indefinite loops share. *)
Definition interrupted_cleanup : M unit :=
  print (LF ++ LF ++ YELLOW ++ "Interrupted by user" ++ RESET) ;;
  print "Turning all appliances OFF..." ;;
  turn_all_off ;;
  n <- get_cycle_count ;;
  print (LF ++ GREEN ++ "Cleanup complete. Total cycles: " ++ str_nat n ++ RESET ++ LF).

Definition continuous_body : M flow :=
  incr_cycle_count ;;
  n <- get_cycle_count ;;
  print (LF ++ BOLD ++ CYAN ++ str_mul "=" 60 ++ RESET) ;;
  print (BOLD ++ CYAN ++ "  Cycle #" ++ str_nat n ++ RESET) ;;
  print (BOLD ++ CYAN ++ str_mul "=" 60 ++ RESET) ;;
  ok <- run_test_cycle ;;
  if negb ok then
    print (LF ++ RED ++ "Stopping due to errors." ++ RESET) ;;
    ret Break
  else
    print (LF ++ GREEN ++ "✓ Cycle #" ++ str_nat n ++ " complete" ++ RESET) ;;
    print (YELLOW ++ "Waiting 5 seconds before next cycle..." ++ RESET) ;;
    time_sleep 5 ;;
    ret Next.

Definition continuous_mode (fuel : nat) : M unit :=
  print (LF ++ BOLD ++ YELLOW ++ "Running in CONTINUOUS mode" ++ RESET) ;;
  print (YELLOW ++ "Press Ctrl+C to stop" ++ RESET ++ LF) ;;
  set_cycle_count 0 ;;
  try_except_KeyboardInterrupt
    (while_true fuel continuous_body)
    interrupted_cleanup.

Definition single_appliance_body (appliance_name : string) : M flow :=
  incr_cycle_count ;;
  n <- get_cycle_count ;;
  print (LF ++ BOLD ++ CYAN ++ str_mul "=" 60 ++ RESET) ;;
  print (BOLD ++ CYAN ++ "  " ++ appliance_name ++ " - Cycle #" ++ str_nat n ++ RESET) ;;
  print (BOLD ++ CYAN ++ str_mul "=" 60 ++ RESET ++ LF) ;;
  print (BOLD ++ "Turning " ++ appliance_name ++ " ON (all others OFF)" ++ RESET) ;;
  ok <- send_control_command
          (map (fun app =>
                  {| name := app;
                     action := if app =? appliance_name then ON else OFF;
                     timeout_minutes := 5 |})
               APPLIANCES)
          (appliance_name ++ " ON") ;;
  if negb ok then
    print (LF ++ RED ++ "Failed to turn on " ++ appliance_name ++ ". Stopping." ++ RESET ++ LF) ;;
    ret Break
  else
    time_sleep 1 ;;
    poll_status ;;
    print (LF ++ YELLOW ++ "Waiting " ++ str_nat SWITCH_INTERVAL ++ " seconds..." ++ RESET) ;;
    time_sleep SWITCH_INTERVAL ;;
    print (LF ++ BOLD ++ "Turning " ++ appliance_name ++ " OFF" ++ RESET) ;;
    ok <- send_control_command
            (map (fun app => {| name := app; action := OFF; timeout_minutes := 5 |})
                 APPLIANCES)
            (appliance_name ++ " OFF") ;;
    if negb ok then
      print (LF ++ RED ++ "Failed to turn off " ++ appliance_name ++ ". Stopping." ++ RESET ++ LF) ;;
      ret Break
    else
      time_sleep 1 ;;
      poll_status ;;
      print (LF ++ GREEN ++ "✓ Cycle #" ++ str_nat n ++ " complete" ++ RESET) ;;
      print (YELLOW ++ "Waiting 3 seconds before next cycle..." ++ RESET) ;;
      time_sleep 3 ;;
      ret Next.

Definition single_appliance_mode (fuel : nat) (appliance_name : string) : M unit :=
  print (LF ++ BOLD ++ YELLOW ++ "Running SINGLE APPLIANCE mode: " ++ appliance_name ++ RESET) ;;
  print (YELLOW ++ "Press Ctrl+C to stop" ++ RESET ++ LF) ;;
  set_cycle_count 0 ;;
  try_except_KeyboardInterrupt
    (while_true fuel (single_appliance_body appliance_name))
    interrupted_cleanup.

(** [s.lower()]: on a string of ASCII characters the letters are folded;
    on any other string the interpreter's tables decide. *)
Definition lower (s : string) : string :=
  if is_ascii s then fold_ascii s else unicode_lower w s.

(** The [for app in APPLIANCES] of [main]: the first configured name that
    equals the argument once both are lowered. *)
Definition match_appliance (appliance_name : string) : option string :=
  find (fun app => lower app =? lower appliance_name) APPLIANCES.

(** [main], on [sys.argv]. *)
Definition main (fuel : nat) (argv : list string) : M unit :=
  print_header ;;
  if (2 <? length argv)%nat && in_list (nth 1 argv "") ["-a"; "--appliance"] then
    let appliance_name := nth 2 argv "" in
    match match_appliance appliance_name with
    | None =>
        print (RED ++ "Error: '" ++ appliance_name ++ "' is not a valid appliance." ++ RESET) ;;
        print (YELLOW ++ "Valid appliances: " ++ join ", " APPLIANCES ++ RESET ++ LF) ;;
        sys_exit 1
    | Some matched_appliance => single_appliance_mode fuel matched_appliance
    end
  else if (1 <? length argv)%nat && in_list (nth 1 argv "") ["-c"; "--continuous"] then
    continuous_mode fuel
  else
    print (BOLD ++ "Running SINGLE test cycle" ++ RESET) ;;
    print (YELLOW ++ "(Use --continuous or -c flag for continuous mode)" ++ RESET ++ LF) ;;
    ok <- run_test_cycle ;;
    if ok then
      print (LF ++ GREEN ++ BOLD ++ "✓ Test cycle complete!" ++ RESET ++ LF) ;;
      print (YELLOW ++ "Tips:" ++ RESET) ;;
      print "  • Check if you heard relay clicks for each appliance" ;;
      print "  • Verify LEDs on relay board switched correctly" ;;
      print "  • Run with --continuous flag for repeated testing" ;;
      print ""
    else
      print (LF ++ RED ++ "Test failed. Please check the errors above." ++ RESET ++ LF) ;;
      sys_exit 1.

End Script.

(** The status the process ends with: 0 when [main] returns, the argument
    of [sys.exit], 1 after the traceback of an uncaught error.  An interrupt
    nobody caught ends the process on the signal, and a loop that is still
    running has not ended it. *)
Definition exit_code (r : outcome unit) : option nat :=
  match r with
  | Ret _ => Some 0
  | Raise (SystemExit code) => Some code
  | Raise KeyboardInterrupt => None
  | Raise _ => Some 1
  | OutOfFuel => None
  end.

(** ** Reading a run *)

Definition result {A} (x : outcome A * store * list event) : outcome A := fst (fst x).
Definition final {A} (x : outcome A * store * list event) : store := snd (fst x).
Definition trace {A} (x : outcome A * store * list event) : list event := snd x.

(** The control calls of a trace, in order, each with the reply it got. *)
Fixpoint controls (tr : list event) : list (payload * post_result) :=
  match tr with
  | [] => []
  | Control p r :: rest => (p, r) :: controls rest
  | _ :: rest => controls rest
  end.

(** The payloads posted. *)
Definition sent (tr : list event) : list payload := map fst (controls tr).

(** The status polls of a trace, each with the reply it got. *)
Fixpoint polls (tr : list event) : list get_result :=
  match tr with
  | [] => []
  | Status r :: rest => r :: polls rest
  | _ :: rest => polls rest
  end.

(** A control call succeeds exactly on a response with status 200. *)
Definition send_ok (r : post_result) : bool :=
  match r with
  | Response status_code _ => (status_code =? 200)%nat
  | _ => false
  end.

(** The replies on which [send_control_command] returns [False]. *)
Definition send_fails (r : post_result) : bool :=
  match r with
  | Response status_code _ => negb (status_code =? 200)%nat
  | RaisesConnectionError | RaisesTimeout | RaisesException _ => true
  | RaisesKeyboardInterrupt => false
  end.

(** The events that raise [KeyboardInterrupt] into the script: an interrupt
    during a wait or during a control call. *)
Definition raises_interrupt (e : event) : bool :=
  match e with
  | Sleep _ SleepInterrupted => true
  | Control _ RaisesKeyboardInterrupt => true
  | _ => false
  end.

(** What follows the first such event, if there is one. *)
Fixpoint after_interrupt (tr : list event) : option (list event) :=
  match tr with
  | [] => None
  | e :: rest => if raises_interrupt e then Some rest else after_interrupt rest
  end.

(** What follows the first control call. *)
Fixpoint after_control (tr : list event) : list event :=
  match tr with
  | [] => []
  | Control _ _ :: rest => rest
  | _ :: rest => after_control rest
  end.

(** The line printed right after the request of a send came back. *)
Definition verdict (tr : list event) : option event := hd_error (after_control tr).

(** The four kinds of failed send. *)
Inductive send_failure :=
| NonSuccessStatus
| ConnectionFailure
| RequestTimeout
| UnclassifiedError.

Definition classify (r : post_result) : option send_failure :=
  match r with
  | Response status_code _ => if (status_code =? 200)%nat then None else Some NonSuccessStatus
  | RaisesConnectionError => Some ConnectionFailure
  | RaisesTimeout => Some RequestTimeout
  | RaisesException _ => Some UnclassifiedError
  | RaisesKeyboardInterrupt => None
  end.

(** A payload names every configured appliance once, in order, and
    switches at most one of them on. *)
Definition well_formed (p : payload) : Prop :=
  map name p = APPLIANCES /\ (length (filter is_on p) <= 1)%nat.

(** The sensor-error mark of a temperature text. *)
Definition flagged (t : text) : bool :=
  existsb (fun p => match p with
                    | Lit s => substring_of "(SENSOR ERROR!)" s
                    | _ => false
                    end) t.

(** A temperature that [{temp:.1f}] can format: anything but an int beyond
    the range of a float. *)
Definition fits_float (temp : value) : bool :=
  match temp with
  | JInt n => negb (float_overflows n)
  | _ => true
  end.

(** [display_status] runs to its end on this value. *)
Definition display_ok (v : value) : bool :=
  match result (display_status v init) with
  | Ret _ => true
  | _ => false
  end.

(** A status reply that [poll_status] gets through without an exception. *)
Definition status_displays (r : get_result) : bool :=
  match r with
  | StatusResponse status_code (Some v) =>
      if (status_code =? 200)%nat then (if truthy v then display_ok v else true) else true
  | _ => true
  end.

(** A run in which the operator does not interrupt a wait or a control
    call and every status the device reports can be displayed. *)
Record undisturbed (w : World) : Prop := {
  sleeps_elapse : forall n, sleep_reply w n = Elapsed;
  posts_return : forall n, post_reply w n <> RaisesKeyboardInterrupt;
  statuses_display : forall n, status_displays (get_reply w n) = true
}.

(** A device that answers every control and status request with 200. *)
Record answers_200 (w : World) : Prop := {
  control_200 : forall n, exists body, post_reply w n = Response 200 body;
  status_200 : forall n, exists json, get_reply w n = StatusResponse 200 json
}.

(** The line [run_test_cycle] prints when a single-on send failed. *)
Definition is_skip_line (e : event) : bool :=
  match e with
  | Stdout [Lit s] _ => s =? YELLOW ++ "  Skipping to next appliance..." ++ RESET
  | _ => false
  end.

Definition count_if {A} (f : A -> bool) (l : list A) : nat := length (filter f l).

(** ** Sample worlds *)

Definition one_appliance (state mode : string) : value :=
  JObj [("state", JStr state); ("mode", JStr mode)].

(** 25.5 as a binary64. *)
Definition float_25_5 : spec_float := S754_finite false 7177611906121728 (-48).

Definition sample_status : value :=
  JObj [("temperature_celsius", JFloat float_25_5);
        ("appliances",
         JObj [("Filter", one_appliance "ON" "MANUAL");
               ("CO2", one_appliance "OFF" "MANUAL");
               ("Light", one_appliance "OFF" "MANUAL");
               ("Heater", one_appliance "ON" "TEMP_CONTROLLED");
               ("HangOnFilter", one_appliance "OFF" "MANUAL");
               ("WaveMaker", one_appliance "OFF" "MANUAL")])].

(** The Kelvin sign, U+212A, in UTF-8. *)
Definition kelvin_sign : string :=
  String (ascii_of_nat 226) (String (ascii_of_nat 132) (String (ascii_of_nat 170) "")).

Definition is_kelvin_sign (a b c : ascii) : bool :=
  String a (String b (String c "")) =? kelvin_sign.

(** The part of the case tables that the sample runs use: the Kelvin sign
    lowers to [k] and the ASCII letters are folded, which is [str.lower]
    on the strings made of ASCII characters and Kelvin signs.  The sample
    runs pass no other strings. *)
Fixpoint sample_lower (s : string) : string :=
  match s with
  | EmptyString => EmptyString
  | String a rest =>
      match rest with
      | String b (String c rest') =>
          if is_kelvin_sign a b c then String "k" (sample_lower rest')
          else String (lower_ascii a) (sample_lower rest)
      | _ => String (lower_ascii a) (sample_lower rest)
      end
  end.

(** A device that is up and an operator who keeps away from the keyboard. *)
Definition healthy : World :=
  {| strftime_now := fun _ => "12:00:00";
     post_reply := fun _ => Response 200 "OK";
     get_reply := fun _ => StatusResponse 200 (Some sample_status);
     sleep_reply := fun _ => Elapsed;
     unicode_lower := sample_lower |}.

(** A device that cannot be reached. *)
Definition unreachable : World :=
  {| strftime_now := fun _ => "12:00:00";
     post_reply := fun _ => RaisesConnectionError;
     get_reply := fun _ => GetRaisesException;
     sleep_reply := fun _ => Elapsed;
     unicode_lower := sample_lower |}.

(** The healthy device, with Ctrl+C pressed while the first status request
    is in flight. *)
Definition interrupt_in_first_poll : World :=
  {| strftime_now := fun _ => "12:00:00";
     post_reply := fun _ => Response 200 "OK";
     get_reply := fun n => match n with
                           | 0 => GetRaisesKeyboardInterrupt
                           | _ => StatusResponse 200 (Some sample_status)
                           end;
     sleep_reply := fun _ => Elapsed;
     unicode_lower := sample_lower |}.

(** The healthy device, with Ctrl+C pressed during the [n]-th wait. *)
Definition interrupt_in_sleep (n : nat) : World :=
  {| strftime_now := fun _ => "12:00:00";
     post_reply := fun _ => Response 200 "OK";
     get_reply := fun _ => StatusResponse 200 (Some sample_status);
     sleep_reply := fun k => if (k =? n)%nat then SleepInterrupted else Elapsed;
     unicode_lower := sample_lower |}.

(** A device that is reached and answers every command with status 500. *)
Definition refusing : World :=
  {| strftime_now := fun _ => "12:00:00";
     post_reply := fun _ => Response 500 "Internal Server Error";
     get_reply := fun _ => StatusResponse 200 (Some sample_status);
     sleep_reply := fun _ => Elapsed;
     unicode_lower := sample_lower |}.

(** A status whose probe is unplugged. *)
Definition faulty_probe_status : value :=
  JObj [("temperature_celsius", JFloat minus_127_0); ("appliances", JObj [])].

(** A status whose temperature is an int that no float can hold. *)
Definition huge_temperature_status : value :=
  JObj [("temperature_celsius", JInt (10 ^ 400)); ("appliances", JObj [])].

(** ** Properties of computations *)

(** Every event a computation causes satisfies [P], whatever the store it
    starts from. *)
Definition always {A} (P : event -> Prop) (m : M A) : Prop :=
  forall s, Forall P (trace (m s)).

(** A control call is admissible when its payload is well formed. *)
Definition payload_ok (e : event) : Prop :=
  match e with
  | Control p _ => well_formed p
  | _ => True
  end.

(** A computation that neither reads nor changes the store. *)
Definition stateless {A} (m : M A) : Prop :=
  forall s, final (m s) = s /\ result (m s) = result (m init) /\ trace (m s) = trace (m init).

(** A computation that ends by returning or by one of the errors that
    reading a status can raise. *)
Definition gentle {A} (m : M A) : Prop :=
  forall s, match result (m s) with
            | Raise KeyboardInterrupt | Raise (SystemExit _) | OutOfFuel => False
            | _ => True
            end.

(** How an interrupt shows in a run: when the run ends by
    [KeyboardInterrupt], the event that raised it is the last of the trace
    and the first of its kind; otherwise the trace holds no such event. *)
Definition interrupt_law {A} (r : outcome A) (tr : list event) : Prop :=
  match r with
  | Raise KeyboardInterrupt => after_interrupt tr = Some []
  | _ => after_interrupt tr = None
  end.

Definition disciplined {A} (m : M A) : Prop :=
  forall s, interrupt_law (result (m s)) (trace (m s)).

(** A line on standard output other than the skip line. *)
Definition silent (e : event) : bool :=
  match e with
  | Stdout _ _ => negb (is_skip_line e)
  | _ => false
  end.

(** What the claims count in a trace: the control calls with their
    replies, the number of status polls, the number of skip lines. *)
Definition summary (tr : list event) : list (payload * post_result) * nat * nat :=
  (controls tr, length (polls tr), count_if is_skip_line tr).

Definition add_summary (x y : list (payload * post_result) * nat * nat) :
  list (payload * post_result) * nat * nat :=
  match x, y with
  | (c1, p1, k1), (c2, p2, k2) => ((c1 ++ c2)%list, p1 + p2, k1 + k2)
  end.

(** A computation that returns from every store, with a result and a trace
    that satisfy [Q]. *)
Definition returns {A} (m : M A) (Q : A -> list event -> Prop) : Prop :=
  forall s, exists a, result (m s) = Ret a /\ Q a (trace (m s)).

(** The summary of a pass over some appliances: one single-on call each,
    one poll per call that succeeded, one skip line per call that failed. *)
Definition pass_summary (apps : list string)
    (x : list (payload * post_result) * nat * nat) : Prop :=
  match x with
  | (calls, npolls, nskips) =>
      map fst calls = map single_on_payload apps /\
      npolls = count_if (fun c => send_ok (snd c)) calls /\
      nskips = count_if (fun c => send_fails (snd c)) calls
  end.

(** The summary of one test cycle that got past its first all-off: an
    all-off call, a pass over the configured appliances, an all-off call;
    two polls besides those of the pass. *)
Definition cycle_summary (x : list (payload * post_result) * nat * nat) : Prop :=
  match x with
  | (calls, npolls, nskips) =>
      exists first mid last,
        calls = ((all_off_payload, first) :: mid ++ [(all_off_payload, last)])%list /\
        map fst mid = map single_on_payload APPLIANCES /\
        nskips = count_if (fun c => send_fails (snd c)) mid /\
        npolls = 2 + count_if (fun c => send_ok (snd c)) mid
  end.

(** An event whose control call, if it is one, succeeded. *)
Definition control_succeeded (e : event) : Prop :=
  match e with
  | Control _ r => send_ok r = true
  | _ => True
  end.

(** Every run of [m] ends with an outcome and a trace that satisfy [Q]. *)
Definition holds {A} (m : M A) (Q : outcome A -> list event -> Prop) : Prop :=
  forall s, Q (result (m s)) (trace (m s)).

(** A sequence of control calls that ends with a failed one, all the
    earlier ones having succeeded. *)
Definition ends_with_failure (calls : list (payload * post_result)) : Prop :=
  exists earlier p r,
    calls = (earlier ++ [(p, r)])%list /\
    send_fails r = true /\
    Forall (fun c => send_ok (snd c) = true) earlier.

(** What a pass of a loop body leaves behind: after [break] the calls end
    with the failed one, after a full pass they all succeeded, and when
    an exception ended the pass no call has failed. *)
Definition call_law (r : outcome flow) (calls : list (payload * post_result)) : Prop :=
  match r with
  | Ret Break => ends_with_failure calls
  | Ret Next => Forall (fun c => send_ok (snd c) = true) calls
  | _ => Forall (fun c => send_fails (snd c) = false) calls
  end.

Definition pass_law (r : outcome flow) (tr : list event) : Prop :=
  call_law r (controls tr).

(** The rest [m] of a loop body keeps the law, the calls [pre] having been
    made before it. *)
Definition passes (pre : list (payload * post_result)) (m : M flow) : Prop :=
  holds m (fun r t => call_law r (pre ++ controls t)).

(** What a loop leaves behind: when it was left by [break] the calls end
    with the failed one; otherwise no call has failed. *)
Definition loop_law (r : outcome unit) (tr : list event) : Prop :=
  match r with
  | Ret _ => ends_with_failure (controls tr)
  | _ => Forall (fun c => send_fails (snd c) = false) (controls tr)
  end.

Definition is_control (e : event) : bool :=
  match e with
  | Control _ _ => true
  | _ => false
  end.

(** What follows the first status request that was interrupted. *)
Fixpoint after_interrupted_poll (tr : list event) : option (list event) :=
  match tr with
  | [] => None
  | Status GetRaisesKeyboardInterrupt :: rest => Some rest
  | _ :: rest => after_interrupted_poll rest
  end.

(** ** Further readings of a run *)

(** The seconds of the waits of a trace, in order. *)
Fixpoint waits (tr : list event) : list nat :=
  match tr with
  | [] => []
  | Sleep seconds _ :: rest => seconds :: waits rest
  | _ :: rest => waits rest
  end.

Definition is_sleep (e : event) : bool :=
  match e with
  | Sleep _ _ => true
  | _ => false
  end.

Definition is_stdout (e : event) : bool :=
  match e with
  | Stdout _ _ => true
  | _ => false
  end.



(** The waits a pass makes around one single-on call: the settle second,
    and the switch interval when the call went through. *)
Definition waits_after (c : payload * post_result) : list nat :=
  if send_ok (snd c) then [1; SWITCH_INTERVAL] else [1].



(** A status whose entry for the filter has no ["state"]. *)
Definition broken_entries : list (string * value) :=
  [("Filter", JObj [("mode", JStr "MANUAL")])].

Definition broken_members : list (string * value) :=
  [("temperature_celsius", JFloat float_25_5); ("appliances", JObj broken_entries)].

(** A device that answers every command with 200 and every status request
    with the broken status. *)
Definition garbled : World :=
  {| strftime_now := fun _ => "12:00:00";
     post_reply := fun _ => Response 200 "OK";
     get_reply := fun _ => StatusResponse 200 (Some (JObj broken_members));
     sleep_reply := fun _ => Elapsed;
     unicode_lower := sample_lower |}.


(** The commands of one test cycle, and of one round of toggle mode. *)
Definition cycle_payloads : list payload :=
  (all_off_payload :: map single_on_payload APPLIANCES ++ [all_off_payload])%list.

Definition round_payloads (appliance_name : string) : list payload :=
  [single_on_payload appliance_name; all_off_payload].

(** The control calls and the waits of a trace. *)
Definition timeline (tr : list event) : list (payload * post_result) * list nat :=
  (controls tr, waits tr).

Definition add_timeline (x y : list (payload * post_result) * list nat) :
  list (payload * post_result) * list nat :=
  match x, y with
  | (c1, w1), (c2, w2) => ((c1 ++ c2)%list, (w1 ++ w2)%list)
  end.


(** The waits of one test cycle in which every command went through, and
    of one round of toggle mode. *)
Definition cycle_waits : list nat :=
  (1 :: 2 :: flat_map (fun _ : string => [1; SWITCH_INTERVAL]) APPLIANCES ++ [1])%list.

Definition round_waits : list nat := [1; SWITCH_INTERVAL; 1; 3].

(** * Properties *)

(** ** Reading the projections of composed runs *)

Lemma result_bind {A B} (m : M A) (k : A -> M B) (s : store) :
  result (bind m k s) =
  match result (m s) with
  | Ret a => result (k a (final (m s)))
  | Raise e => Raise e
  | OutOfFuel => OutOfFuel
  end.
Proof.
  unfold bind, result, final.
  destruct (m s) as [[[a | e |] s1] t1]; simpl; try reflexivity.
  destruct (k a s1) as [[r s2] t2]; reflexivity.
Qed.

Lemma final_bind {A B} (m : M A) (k : A -> M B) (s : store) :
  final (bind m k s) =
  match result (m s) with
  | Ret a => final (k a (final (m s)))
  | _ => final (m s)
  end.
Proof.
  unfold bind, result, final.
  destruct (m s) as [[[a | e |] s1] t1]; simpl; try reflexivity.
  destruct (k a s1) as [[r s2] t2]; reflexivity.
Qed.

Lemma trace_bind {A B} (m : M A) (k : A -> M B) (s : store) :
  trace (bind m k s) =
  (trace (m s) ++
   match result (m s) with
   | Ret a => trace (k a (final (m s)))
   | _ => []
   end)%list.
Proof.
  unfold bind, result, final, trace.
  destruct (m s) as [[[a | e |] s1] t1]; simpl; try (symmetry; apply app_nil_r).
  destruct (k a s1) as [[r s2] t2]; reflexivity.
Qed.

Lemma result_try {A} (m h : M A) (s : store) :
  result (try_except_KeyboardInterrupt m h s) =
  match result (m s) with
  | Raise KeyboardInterrupt => result (h (final (m s)))
  | r => r
  end.
Proof.
  unfold try_except_KeyboardInterrupt, result, final.
  destruct (m s) as [[[a | [] |] s1] t1]; simpl; try reflexivity.
  destruct (h s1) as [[r s2] t2]; reflexivity.
Qed.

Lemma trace_try {A} (m h : M A) (s : store) :
  trace (try_except_KeyboardInterrupt m h s) =
  (trace (m s) ++
   match result (m s) with
   | Raise KeyboardInterrupt => trace (h (final (m s)))
   | _ => []
   end)%list.
Proof.
  unfold try_except_KeyboardInterrupt, result, final, trace.
  destruct (m s) as [[[a | [] |] s1] t1]; simpl; try (symmetry; apply app_nil_r).
  destruct (h s1) as [[r s2] t2]; reflexivity.
Qed.

Lemma bind_ret_l {A B} (a : A) (k : A -> M B) (s : store) : bind (ret a) k s = k a s.
Proof. unfold bind, ret. destruct (k a s) as [[r s2] t2]. reflexivity. Qed.

Lemma bind_assoc {A B C} (m : M A) (k : A -> M B) (h : B -> M C) (s : store) :
  bind (bind m k) h s = bind m (fun a => bind (k a) h) s.
Proof.
  unfold bind. destruct (m s) as [[[a | e |] s1] t1]; try reflexivity.
  destruct (k a s1) as [[[b | e |] s2] t2]; try reflexivity.
  destruct (h b s2) as [[r s3] t3]. rewrite app_assoc. reflexivity.
Qed.

Lemma bind_cong {A B} (m : M A) (k1 k2 : A -> M B) (s : store) :
  (forall a s', k1 a s' = k2 a s') -> bind m k1 s = bind m k2 s.
Proof.
  intro H. unfold bind. destruct (m s) as [[[a | e |] s1] t1]; try reflexivity.
  rewrite H. reflexivity.
Qed.

Lemma trace_emit (e : event) (s : store) : trace (emit e s) = [e].
Proof. reflexivity. Qed.

Lemma result_emit (e : event) (s : store) : result (emit e s) = Ret tt.
Proof. reflexivity. Qed.

Lemma final_emit (e : event) (s : store) : final (emit e s) = s.
Proof. reflexivity. Qed.

(** ** Reading traces that are put together *)

Lemma controls_app (t1 t2 : list event) :
  controls (t1 ++ t2) = (controls t1 ++ controls t2)%list.
Proof.
  induction t1 as [| [t e | p r | r | n r] t1 IH]; simpl; rewrite ?IH; reflexivity.
Qed.

Lemma sent_app (t1 t2 : list event) : sent (t1 ++ t2) = (sent t1 ++ sent t2)%list.
Proof. unfold sent. rewrite controls_app. apply map_app. Qed.

Lemma polls_app (t1 t2 : list event) : polls (t1 ++ t2) = (polls t1 ++ polls t2)%list.
Proof.
  induction t1 as [| [t e | p r | r | n r] t1 IH]; simpl; rewrite ?IH; reflexivity.
Qed.

Lemma count_if_app {A} (f : A -> bool) (l1 l2 : list A) :
  count_if f (l1 ++ l2) = count_if f l1 + count_if f l2.
Proof. unfold count_if. rewrite filter_app. apply length_app. Qed.

Lemma after_interrupt_app (t1 t2 : list event) :
  after_interrupt (t1 ++ t2) =
  match after_interrupt t1 with
  | Some rest => Some (rest ++ t2)%list
  | None => after_interrupt t2
  end.
Proof.
  induction t1 as [| e t1 IH]; simpl; [reflexivity |].
  destruct (raises_interrupt e); [reflexivity | exact IH].
Qed.

(** ** Payloads *)

Section Comprehension.

Variable apps : list string.
Variable f : string -> Action.

Let build := map (fun appliance =>
                    {| name := appliance; action := f appliance; timeout_minutes := 5 |}) apps.

Lemma comprehension_names : map name build = apps.
Proof.
  unfold build. rewrite map_map. simpl. apply map_id.
Qed.

Lemma comprehension_action (e : entry) : In e build -> action e = f (name e).
Proof.
  unfold build. rewrite in_map_iff. intros [a [<- _]]. reflexivity.
Qed.

End Comprehension.

Section SingleOn.

Variable apps : list string.
Variable x : string.

Let build := map (fun appliance =>
                    {| name := appliance;
                       action := if appliance =? x then ON else OFF;
                       timeout_minutes := 5 |}) apps.

Lemma none_on_when_absent : ~ In x apps -> filter is_on build = [].
Proof.
  unfold build. induction apps as [| a l IH]; simpl; intro Hx; [reflexivity |].
  destruct (String.eqb_spec a x) as [-> | Hne].
  - exfalso. apply Hx. now left.
  - unfold is_on at 1. simpl. apply IH. intro. apply Hx. now right.
Qed.

Lemma one_on_when_present :
  NoDup apps -> In x apps ->
  filter is_on build = [{| name := x; action := ON; timeout_minutes := 5 |}].
Proof.
  unfold build. induction apps as [| a l IH]; simpl; intros Hnd Hin; [contradiction |].
  inversion Hnd as [| ? ? Hnotin Hnd']; subst.
  destruct (String.eqb_spec a x) as [-> | Hne].
  - unfold is_on at 1. simpl. f_equal.
    clear IH Hin Hnd Hnd'. induction l as [| b l IHl]; simpl; [reflexivity |].
    destruct (String.eqb_spec b x) as [-> | Hb].
    + exfalso. apply Hnotin. now left.
    + unfold is_on at 1. simpl. apply IHl. intro. apply Hnotin. now right.
  - unfold is_on at 1. simpl. apply IH; [assumption |].
    destruct Hin as [Heq | Hin]; [contradiction | assumption].
Qed.

Lemma at_most_one_on : NoDup apps -> length (filter is_on build) <= 1.
Proof.
  intro Hnd. destruct (in_dec string_dec x apps) as [Hin | Hout].
  - rewrite (one_on_when_present Hnd Hin). simpl. lia.
  - rewrite (none_on_when_absent Hout). simpl. lia.
Qed.

End SingleOn.

Lemma NoDup_APPLIANCES : NoDup APPLIANCES.
Proof.
  unfold APPLIANCES.
  repeat (constructor; [simpl; intuition discriminate |]).
  constructor.
Qed.

Lemma all_off_well_formed : well_formed all_off_payload.
Proof. split; [reflexivity | simpl; lia]. Qed.

Lemma single_on_well_formed (x : string) : well_formed (single_on_payload x).
Proof.
  split.
  - apply comprehension_names with (f := fun a => if a =? x then ON else OFF).
  - apply at_most_one_on, NoDup_APPLIANCES.
Qed.

(** ** One send *)

Lemma controls_send (w : World) (p : payload) (d : string) (s : store) :
  controls (trace (send_control_command w p d s)) = [(p, post_reply w (posts s))].
Proof.
  unfold send_control_command, bind, datetime_now_strftime, print_end, emit,
    requests_post, trace. simpl.
  destruct (post_reply w (posts s)) as [code body | | | msg |]; simpl; try reflexivity.
  destruct (code =? 200)%nat; reflexivity.
Qed.

Lemma result_send (w : World) (p : payload) (d : string) (s : store) :
  result (send_control_command w p d s) =
  match post_reply w (posts s) with
  | RaisesKeyboardInterrupt => Raise KeyboardInterrupt
  | r => Ret (send_ok r)
  end.
Proof.
  unfold send_control_command, bind, datetime_now_strftime, print_end, emit,
    requests_post, result. simpl.
  destruct (post_reply w (posts s)) as [code body | | | msg |]; simpl; try reflexivity.
  destruct (code =? 200)%nat; reflexivity.
Qed.

(** C1. For every configured appliance [X], [turn_on_single X] posts one
    payload; it has one entry per configured appliance, in order; its only
    entry with action ON is the entry for [X], and every other entry has
    action OFF. *)
Theorem turn_on_single_exactly_one_on :
  forall (w : World) (s : store) (X : string),
    In X APPLIANCES ->
    sent (trace (turn_on_single w X s)) = [single_on_payload X] /\
    map name (single_on_payload X) = APPLIANCES /\
    filter is_on (single_on_payload X)
      = [{| name := X; action := ON; timeout_minutes := 5 |}] /\
    (forall e, In e (single_on_payload X) -> name e <> X -> action e = OFF).
Proof.
  intros w s X HX. split; [| split; [| split]].
  - unfold turn_on_single, sent. rewrite controls_send. reflexivity.
  - apply single_on_well_formed.
  - apply one_on_when_present; [apply NoDup_APPLIANCES | exact HX].
  - intros e He Hne.
    rewrite (comprehension_action APPLIANCES (fun a => if a =? X then ON else OFF) e He).
    destruct (String.eqb_spec (name e) X); [contradiction | reflexivity].
Qed.

Lemma turn_on_single_exactly_one_on_witness :
  In "Heater" APPLIANCES /\
  sent (trace (turn_on_single healthy "Heater" init)) = [single_on_payload "Heater"] /\
  map name (single_on_payload "Heater") = APPLIANCES /\
  filter is_on (single_on_payload "Heater")
    = [{| name := "Heater"; action := ON; timeout_minutes := 5 |}] /\
  (forall e, In e (single_on_payload "Heater") -> name e <> "Heater" -> action e = OFF).
Proof.
  assert (H : In "Heater" APPLIANCES) by (simpl; tauto).
  split; [exact H | apply (turn_on_single_exactly_one_on healthy init "Heater" H)].
Defined.

(** C10. For a name [X] outside the configured set, the payload of
    [turn_on_single X] is the payload of [turn_all_off]: every entry has
    action OFF and none has action ON. *)
Theorem single_on_unknown_is_all_off :
  forall (w : World) (s : store) (X : string),
    ~ In X APPLIANCES ->
    single_on_payload X = all_off_payload /\
    sent (trace (turn_on_single w X s)) = sent (trace (turn_all_off w s)) /\
    Forall (fun e => action e = OFF) (single_on_payload X) /\
    filter is_on (single_on_payload X) = [].
Proof.
  intros w s X HX.
  assert (E : single_on_payload X = all_off_payload).
  { unfold single_on_payload, all_off_payload. apply map_ext_in.
    intros a Ha. destruct (String.eqb_spec a X) as [-> | _]; [contradiction | reflexivity]. }
  split; [| split; [| split]].
  - exact E.
  - unfold turn_on_single, turn_all_off, sent. rewrite !controls_send, E. reflexivity.
  - rewrite E. unfold all_off_payload. apply Forall_forall. intros e He.
    apply (comprehension_action APPLIANCES (fun _ => OFF) e He).
  - apply none_on_when_absent, HX.
Qed.

Lemma single_on_unknown_is_all_off_witness :
  ~ In "fridge" APPLIANCES /\
  single_on_payload "fridge" = all_off_payload /\
  sent (trace (turn_on_single healthy "fridge" init)) = sent (trace (turn_all_off healthy init)) /\
  Forall (fun e => action e = OFF) (single_on_payload "fridge") /\
  filter is_on (single_on_payload "fridge") = [].
Proof.
  assert (H : ~ In "fridge" APPLIANCES) by (simpl; intuition discriminate).
  split; [exact H | apply (single_on_unknown_is_all_off healthy init "fridge" H)].
Defined.

(** The line that follows the request, reply by reply. *)
Lemma verdict_send (w : World) (p : payload) (d : string) (s : store) :
  verdict (trace (send_control_command w p d s)) =
  match post_reply w (posts s) with
  | Response code body =>
      if (code =? 200)%nat then Some (Stdout [Lit (GREEN ++ "✓ Success" ++ RESET)] LF)
      else Some (Stdout [Lit (RED ++ "✗ Failed (Status: " ++ str_nat code ++ ")" ++ RESET)] LF)
  | RaisesConnectionError => Some (Stdout [Lit (RED ++ "✗ Connection Error" ++ RESET)] LF)
  | RaisesTimeout => Some (Stdout [Lit (RED ++ "✗ Timeout" ++ RESET)] LF)
  | RaisesException str_e => Some (Stdout [Lit (RED ++ "✗ Error: " ++ str_e ++ RESET)] LF)
  | RaisesKeyboardInterrupt => None
  end.
Proof.
  unfold verdict, send_control_command, bind, datetime_now_strftime, print_end, emit,
    requests_post, trace. simpl.
  destruct (post_reply w (posts s)) as [code body | | | msg |]; simpl; try reflexivity.
  destruct (code =? 200)%nat; reflexivity.
Qed.

Lemma send_ok_iff_200 (r : post_result) :
  send_ok r = true <-> exists body, r = Response 200 body.
Proof.
  split.
  - destruct r as [code body | | | msg |]; simpl; try discriminate.
    intro H. apply Nat.eqb_eq in H. subst. now exists body.
  - intros [body ->]. reflexivity.
Qed.

(** C3. [send_control_command] returns [True] exactly when the reply is a
    response with status 200.  On a response with another status, a
    connection error, a timeout or any other exception it returns [False],
    and the line it prints then tells the four kinds apart: two failed
    sends of different kinds never print the same line. *)
Theorem send_control_command_success_and_failures :
  forall (w : World) (p : payload) (d : string) (s : store),
    let reply := post_reply w (posts s) in
    let run := send_control_command w p d s in
    (result run = Ret true <-> exists body, reply = Response 200 body) /\
    (forall kind, classify reply = Some kind ->
                  result run = Ret false /\ verdict (trace run) <> None) /\
    (forall (w' : World) (p' : payload) (d' : string) (s' : store) kind kind',
        classify reply = Some kind ->
        classify (post_reply w' (posts s')) = Some kind' ->
        kind <> kind' ->
        verdict (trace run) <> verdict (trace (send_control_command w' p' d' s'))).
Proof.
  intros w p d s reply run. subst run. split; [| split].
  - rewrite result_send. fold reply. rewrite <- send_ok_iff_200.
    destruct reply as [code body | | | msg |]; simpl; split; intro H;
      try discriminate; try congruence.
  - intros kind Hk. rewrite result_send, verdict_send. fold reply.
    destruct reply as [code body | | | msg |]; simpl in *; try discriminate;
      try (split; [reflexivity | discriminate]).
    destruct (code =? 200)%nat; [discriminate | split; [reflexivity | discriminate]].
  - intros w' p' d' s' kind kind' Hk Hk' Hne.
    rewrite !verdict_send. fold reply.
    destruct reply as [code body | | | msg |]; simpl in Hk;
      try discriminate;
      destruct (post_reply w' (posts s')) as [code' body' | | | msg' |]; simpl in Hk';
      try discriminate;
      try (destruct (code =? 200)%nat; [discriminate |]);
      try (destruct (code' =? 200)%nat; [discriminate |]);
      try congruence;
      cbn; intro H; inversion H.
Qed.

Lemma send_control_command_success_and_failures_witness :
  classify (post_reply refusing (posts init)) = Some NonSuccessStatus /\
  classify (post_reply unreachable (posts init)) = Some ConnectionFailure /\
  NonSuccessStatus <> ConnectionFailure /\
  result (send_control_command refusing all_off_payload "All OFF" init) = Ret false /\
  verdict (trace (send_control_command refusing all_off_payload "All OFF" init))
    <> verdict (trace (send_control_command unreachable all_off_payload "All OFF" init)).
Proof.
  destruct (send_control_command_success_and_failures refusing all_off_payload "All OFF" init)
    as [_ [Hfail Hdistinct]].
  assert (H1 : classify (post_reply refusing (posts init)) = Some NonSuccessStatus)
    by reflexivity.
  assert (H2 : classify (post_reply unreachable (posts init)) = Some ConnectionFailure)
    by reflexivity.
  assert (H3 : NonSuccessStatus <> ConnectionFailure) by discriminate.
  split; [exact H1 | split; [exact H2 | split; [exact H3 | split]]].
  - exact (proj1 (Hfail NonSuccessStatus H1)).
  - exact (Hdistinct unreachable all_off_payload "All OFF" init _ _ H1 H2 H3).
Defined.

(** ** The temperature line *)

Lemma SFeqb_minus_127_0 (f : spec_float) : SFeqb f minus_127_0 = true <-> f = minus_127_0.
Proof.
  split; [| intros ->; reflexivity].
  unfold SFeqb, SFcompare, minus_127_0.
  destruct f as [sg | sg | | sg m e]; try (destruct sg; discriminate); try discriminate.
  destruct sg; [| discriminate].
  destruct (Z.compare_spec e (-46)) as [-> | _ | _]; try discriminate.
  destruct (PosDef.Pos.compare_cont Eq m 8936830510563328%positive) eqn:E; simpl;
    try discriminate.
  intros _. apply Pos.compare_eq in E. subst. reflexivity.
Qed.

Lemma int_eq_minus_127_0 (n : Z) : int_eq_float n minus_127_0 = true <-> n = (-127)%Z.
Proof.
  unfold int_eq_float, minus_127_0.
  change (0 <=? -46)%Z with false. cbv iota.
  change (2 ^ (- -46))%Z with 70368744177664%Z.
  rewrite Z.eqb_eq. lia.
Qed.

Lemma py_eq_float_minus_127_0 (v : value) :
  py_eq_float v minus_127_0 = true <-> v = JInt (-127) \/ v = JFloat minus_127_0.
Proof.
  destruct v as [| b | n | f | t | items | members]; unfold py_eq_float;
    try (split; [discriminate | intros [H | H]; discriminate]).
  - split; [| intros [H | H]; discriminate].
    rewrite int_eq_minus_127_0. destruct b; discriminate.
  - rewrite int_eq_minus_127_0. split; [intros ->; now left |].
    intros [H | H]; [now inversion H | discriminate].
  - rewrite SFeqb_minus_127_0. split; [intros ->; now right |].
    intros [H | H]; [discriminate | now inversion H].
Qed.

Lemma not_minus_127_when_too_large (temp : value) :
  fits_float temp = false -> py_eq_float temp minus_127_0 = false.
Proof.
  destruct temp as [| b | n | f | t | items | members]; try discriminate.
  unfold fits_float, float_overflows, py_eq_float. intro H.
  apply negb_false_iff, Z.leb_le in H.
  destruct (int_eq_float n minus_127_0) eqn:E; [| reflexivity].
  apply int_eq_minus_127_0 in E. subst n.
  assert (Hpow : (2 ^ 8 <= 2 ^ 970)%Z) by (apply Z.pow_le_mono_r; lia).
  assert (Hdbl : (2 ^ 1024 = 2 ^ 54 * 2 ^ 970)%Z) by (rewrite <- Z.pow_add_r; [reflexivity | lia | lia]).
  change (Z.abs (-127)) with 127%Z in H.
  change (2 ^ 8)%Z with 256%Z in Hpow. change (2 ^ 54)%Z with 18014398509481984%Z in Hdbl.
  lia.
Qed.

(** The three ways [temp_str] goes for a number, and the one for anything
    else. *)
Lemma temp_str_sensor_error (temp : value) (s : store) :
  py_eq_float temp minus_127_0 = true ->
  temp_str temp s = (Ret [Lit RED; Show temp; Lit ("°C (SENSOR ERROR!)" ++ RESET)], s, []).
Proof. intro H. unfold temp_str. rewrite H. reflexivity. Qed.

Lemma temp_str_reading (temp : value) (s : store) :
  py_eq_float temp minus_127_0 = false ->
  is_int_or_float temp = true ->
  fits_float temp = true ->
  temp_str temp s = (Ret [Lit CYAN; Fixed1 temp; Lit ("°C" ++ RESET)], s, []).
Proof.
  intros H Hnum Hfit. unfold temp_str. rewrite H, Hnum.
  destruct temp as [| b | n | f | t | items | members]; try discriminate; try reflexivity.
  unfold fits_float in Hfit. apply negb_true_iff in Hfit.
  unfold format_fixed1. rewrite Hfit. reflexivity.
Qed.

Lemma temp_str_too_large (temp : value) (s : store) :
  fits_float temp = false -> temp_str temp s = (Raise OverflowError, s, []).
Proof.
  intro Hfit. unfold temp_str. rewrite (not_minus_127_when_too_large temp Hfit).
  destruct temp as [| b | n | f | t | items | members]; try discriminate.
  unfold fits_float in Hfit. apply negb_false_iff in Hfit.
  cbn [is_int_or_float]. unfold format_fixed1. rewrite Hfit. reflexivity.
Qed.

Lemma temp_str_no_number (temp : value) (s : store) :
  is_int_or_float temp = false ->
  temp_str temp s = (Ret [Show temp; Lit "°C"], s, []).
Proof.
  intro Hnum. unfold temp_str.
  destruct temp as [| b | n | f | t | items | members]; try discriminate; reflexivity.
Qed.

(** Whichever way it goes, [temp_str] prints nothing and leaves the store
    alone, and it ends by returning or by [OverflowError]. *)
Lemma temp_str_quiet (temp : value) (s : store) :
  exists r, temp_str temp s = (r, s, []) /\ (r = Raise OverflowError \/ exists t, r = Ret t).
Proof.
  destruct (fits_float temp) eqn:Hfit.
  - destruct (py_eq_float temp minus_127_0) eqn:Heq.
    + eexists. split; [apply temp_str_sensor_error, Heq | right; eexists; reflexivity].
    + destruct (is_int_or_float temp) eqn:Hnum.
      * eexists. split; [apply temp_str_reading; assumption | right; eexists; reflexivity].
      * eexists. split; [apply temp_str_no_number, Hnum | right; eexists; reflexivity].
  - eexists. split; [apply temp_str_too_large, Hfit | left; reflexivity].
Qed.


(** [display_status] on an object that has an ["appliances"] member: what
    it does up to the temperature line. *)
Lemma display_status_shown (members : list (string * value)) (shown : value) (s : store) :
  lookup "appliances" members = Some shown ->
  display_status (JObj members) s
  = (temp_str <- temp_str match lookup "temperature_celsius" members with
                          | Some v => v
                          | None => JStr "N/A"
                          end ;;
     print_text (Lit "  Temperature: " :: temp_str) ;;
     states <- collect_states shown APPLIANCES ;;
     print ("  Current: " ++ join " | " states)) s.
Proof.
  intro Happ. unfold display_status.
  assert (Ht : truthy (JObj members) = true).
  { destruct members; [discriminate | reflexivity]. }
  rewrite Ht. cbn [negb]. unfold py_in at 1. rewrite Happ.
  rewrite bind_assoc, !bind_ret_l. cbn [negb].
  unfold py_get at 1. rewrite bind_ret_l.
  apply bind_cong. intros t s'. apply bind_cong. intros _ s''.
  unfold py_getitem. rewrite Happ, bind_ret_l. reflexivity.
Qed.

Lemma display_status_first_line (members : list (string * value)) (shown : value)
    (t : text) (s : store) :
  lookup "appliances" members = Some shown ->
  temp_str match lookup "temperature_celsius" members with
           | Some v => v
           | None => JStr "N/A"
           end s = (Ret t, s, []) ->
  hd_error (trace (display_status (JObj members) s))
  = Some (Stdout (Lit "  Temperature: " :: t) LF).
Proof.
  intros Happ Ht. rewrite (display_status_shown members shown s Happ).
  unfold bind at 1. rewrite Ht. unfold bind at 1, print_text at 1, emit at 1.
  destruct (bind _ _ s) as [[r s2] t2]. reflexivity.
Qed.

Lemma display_status_too_large (members : list (string * value)) (shown : value) (s : store) :
  lookup "appliances" members = Some shown ->
  fits_float match lookup "temperature_celsius" members with
             | Some v => v
             | None => JStr "N/A"
             end = false ->
  display_status (JObj members) s = (Raise OverflowError, s, []).
Proof.
  intros Happ Hfit. rewrite (display_status_shown members shown s Happ).
  unfold bind at 1. rewrite (temp_str_too_large _ s Hfit). reflexivity.
Qed.

(** C4, as amended.  When [display_status] shows a status (an object with an
    ["appliances"] member) whose temperature is a number, the temperature
    line carries the sensor-error mark exactly when the temperature equals
    -127.0 (the float, or the int -127, which Python takes for equal).
    Every other number that a float can hold is printed first, as a plain
    reading in one decimal without the mark.  An int beyond the range of a
    float is not displayed: [display_status] raises [OverflowError] before
    it has printed anything. *)
Theorem display_status_flags_minus_127 :
  forall (members : list (string * value)) (temp : value) (s : store),
    lookup "appliances" members <> None ->
    temp = match lookup "temperature_celsius" members with
           | Some v => v
           | None => JStr "N/A"
           end ->
    is_int_or_float temp = true ->
    (temp = JInt (-127) \/ temp = JFloat minus_127_0 ->
     hd_error (trace (display_status (JObj members) s))
     = Some (Stdout [Lit "  Temperature: "; Lit RED; Show temp;
                     Lit ("°C (SENSOR ERROR!)" ++ RESET)] LF)) /\
    (~ (temp = JInt (-127) \/ temp = JFloat minus_127_0) ->
     fits_float temp = true ->
     hd_error (trace (display_status (JObj members) s))
     = Some (Stdout [Lit "  Temperature: "; Lit CYAN; Fixed1 temp; Lit ("°C" ++ RESET)] LF)) /\
    (fits_float temp = false ->
     display_status (JObj members) s = (Raise OverflowError, s, [])) /\
    (forall t end_,
       hd_error (trace (display_status (JObj members) s)) = Some (Stdout t end_) ->
       (flagged t = true <-> temp = JInt (-127) \/ temp = JFloat minus_127_0)).
Proof.
  intros members temp s Happ Htemp Hnum.
  destruct (lookup "appliances" members) as [shown |] eqn:E; [clear Happ | contradiction Happ; reflexivity].
  assert (Hflag : temp = JInt (-127) \/ temp = JFloat minus_127_0 ->
                  hd_error (trace (display_status (JObj members) s))
                  = Some (Stdout [Lit "  Temperature: "; Lit RED; Show temp;
                                  Lit ("°C (SENSOR ERROR!)" ++ RESET)] LF)).
  { intro H. apply py_eq_float_minus_127_0 in H.
    apply (display_status_first_line members shown _ s E).
    rewrite <- Htemp. apply temp_str_sensor_error, H. }
  assert (Hplain : ~ (temp = JInt (-127) \/ temp = JFloat minus_127_0) ->
                   fits_float temp = true ->
                   hd_error (trace (display_status (JObj members) s))
                   = Some (Stdout [Lit "  Temperature: "; Lit CYAN; Fixed1 temp;
                                   Lit ("°C" ++ RESET)] LF)).
  { intros H Hfit. rewrite <- py_eq_float_minus_127_0 in H.
    apply (display_status_first_line members shown _ s E).
    rewrite <- Htemp. apply temp_str_reading; [| exact Hnum | exact Hfit].
    destruct (py_eq_float temp minus_127_0); [contradiction H; reflexivity | reflexivity]. }
  assert (Hlarge : fits_float temp = false ->
                   display_status (JObj members) s = (Raise OverflowError, s, [])).
  { intro Hfit. apply (display_status_too_large members shown s E).
    rewrite <- Htemp. exact Hfit. }
  split; [exact Hflag | split; [exact Hplain | split; [exact Hlarge |]]].
  intros t end_ Hhd.
  destruct (py_eq_float temp minus_127_0) eqn:Heq.
  - assert (H : temp = JInt (-127) \/ temp = JFloat minus_127_0)
      by (apply py_eq_float_minus_127_0; exact Heq).
    rewrite (Hflag H) in Hhd. inversion Hhd; subst.
    split; [intros _; exact H | intros _; reflexivity].
  - assert (H : ~ (temp = JInt (-127) \/ temp = JFloat minus_127_0)).
    { rewrite <- py_eq_float_minus_127_0, Heq. discriminate. }
    destruct (fits_float temp) eqn:Hfit.
    + rewrite (Hplain H eq_refl) in Hhd. inversion Hhd; subst.
      split; [intro Hf; vm_compute in Hf; discriminate | intro Hm; contradiction].
    + rewrite (Hlarge eq_refl) in Hhd. discriminate.
Qed.

Lemma display_status_flags_minus_127_witness :
  lookup "appliances" [("temperature_celsius", JFloat minus_127_0); ("appliances", JObj [])]
    <> None /\
  is_int_or_float (JFloat minus_127_0) = true /\
  hd_error (trace (display_status faulty_probe_status init))
    = Some (Stdout [Lit "  Temperature: "; Lit RED; Show (JFloat minus_127_0);
                    Lit ("°C (SENSOR ERROR!)" ++ RESET)] LF) /\
  flagged [Lit RED; Show (JFloat minus_127_0); Lit ("°C (SENSOR ERROR!)" ++ RESET)] = true.
Proof.
  assert (H1 : lookup "appliances"
                 [("temperature_celsius", JFloat minus_127_0); ("appliances", JObj [])]
               <> None) by (simpl; discriminate).
  assert (H2 : is_int_or_float (JFloat minus_127_0) = true) by reflexivity.
  destruct (display_status_flags_minus_127
              [("temperature_celsius", JFloat minus_127_0); ("appliances", JObj [])]
              (JFloat minus_127_0) init H1 eq_refl H2) as [Hhd [_ [_ Hflag]]].
  assert (H3 : JFloat minus_127_0 = JInt (-127) \/ JFloat minus_127_0 = JFloat minus_127_0)
    by (right; reflexivity).
  split; [exact H1 | split; [exact H2 | split; [exact (Hhd H3) |]]].
  apply (proj2 (Hflag _ _ (Hhd H3))). exact H3.
Defined.

(** The claim as the spec has it fails for a number no float can hold: the
    int [10^400] is a numeric temperature other than -127.0, and
    [display_status] prints no reading for it but raises. *)
Lemma huge_temperature_not_displayed :
  is_int_or_float (JInt (10 ^ 400)) = true /\
  py_eq_float (JInt (10 ^ 400)) minus_127_0 = false /\
  display_status huge_temperature_status init = (Raise OverflowError, init, []).
Proof.
  split; [reflexivity | split; vm_compute; reflexivity].
Qed.

(** ** Choosing the mode *)

Lemma lower_of_ascii (w : World) (s : string) :
  is_ascii s = true -> lower w s = fold_ascii s.
Proof. intro H. unfold lower. rewrite H. reflexivity. Qed.

Lemma match_appliance_lower (w : World) (given app : string) :
  In app APPLIANCES -> lower w given = lower w app -> match_appliance w given = Some app.
Proof.
  intros Hin Hl. unfold match_appliance. rewrite Hl.
  simpl in Hin. intuition (subst; reflexivity).
Qed.

Lemma match_appliance_some (w : World) (given app : string) :
  match_appliance w given = Some app -> In app APPLIANCES /\ lower w app = lower w given.
Proof.
  unfold match_appliance. intro H. apply find_some in H. destruct H as [Hin Heq].
  split; [exact Hin | now apply String.eqb_eq].
Qed.

Lemma match_appliance_none (w : World) (given : string) :
  (forall app, In app APPLIANCES -> lower w given <> lower w app) ->
  match_appliance w given = None.
Proof.
  intro Hall. destruct (match_appliance w given) as [app |] eqn:E; [| reflexivity].
  destruct (match_appliance_some w given app E) as [Hin Hl].
  exfalso. exact (Hall app Hin (eq_sym Hl)).
Qed.



(** ** Invariants of the events of a run *)

Section Always.

Context {P : event -> Prop}.

Lemma always_ret {A} (a : A) : always P (ret a).
Proof. intro s. constructor. Qed.

Lemma always_raise {A} (e : exn) : always P (@raise A e).
Proof. intro s. constructor. Qed.

Lemma always_out_of_fuel {A} : always P (@out_of_fuel A).
Proof. intro s. constructor. Qed.

Lemma always_emit (e : event) : P e -> always P (emit e).
Proof. intros He s. rewrite trace_emit. constructor; [exact He | constructor]. Qed.

Lemma always_bind {A B} (m : M A) (k : A -> M B) :
  always P m -> (forall a, always P (k a)) -> always P (bind m k).
Proof.
  intros Hm Hk s. rewrite trace_bind. apply Forall_app. split; [apply Hm |].
  destruct (result (m s)); [apply Hk | constructor | constructor].
Qed.

Lemma always_try {A} (m h : M A) :
  always P m -> always P h -> always P (try_except_KeyboardInterrupt m h).
Proof.
  intros Hm Hh s. rewrite trace_try. apply Forall_app. split; [apply Hm |].
  destruct (result (m s)) as [a | [] |]; try constructor. apply Hh.
Qed.

Lemma always_while (fuel : nat) (body : M flow) :
  always P body -> always P (while_true fuel body).
Proof.
  intro Hb. induction fuel as [| fuel IH]; simpl.
  - apply always_out_of_fuel.
  - apply always_bind; [exact Hb |]. intros [|]; [exact IH | apply always_ret].
Qed.

Lemma always_set_cycle_count (n : nat) : always P (set_cycle_count n).
Proof. intro s. constructor. Qed.

Lemma always_get_cycle_count : always P get_cycle_count.
Proof. intro s. constructor. Qed.

Lemma always_temp_str (temp : value) : always P (temp_str temp).
Proof.
  intro s. destruct (temp_str_quiet temp s) as [r [-> _]]. constructor.
Qed.

Lemma always_py_in (key : string) (container : value) : always P (py_in key container).
Proof. destruct container; intros ?; constructor. Qed.

Lemma always_py_get (container : value) (key : string) (default : value) :
  always P (py_get container key default).
Proof. destruct container; intros ?; constructor. Qed.

Lemma always_py_getitem (container : value) (key : string) :
  always P (py_getitem container key).
Proof.
  destruct container; try (intros ?; constructor).
  unfold py_getitem. destruct (lookup key members); intros ?; constructor.
Qed.

End Always.

(** Takes an [always] goal apart along the structure of the computation. *)
Ltac always_step :=
  lazymatch goal with
  | |- always _ (ret _) => apply always_ret
  | |- always _ (raise _) => apply always_raise
  | |- always _ (sys_exit _) => apply always_raise
  | |- always _ out_of_fuel => apply always_out_of_fuel
  | |- always _ (set_cycle_count _) => apply always_set_cycle_count
  | |- always _ get_cycle_count => apply always_get_cycle_count
  | |- always _ (py_in _ _) => apply always_py_in
  | |- always _ (py_get _ _ _) => apply always_py_get
  | |- always _ (py_getitem _ _) => apply always_py_getitem
  | |- always _ (temp_str _) => apply always_temp_str
  | |- always _ (bind _ _) => apply always_bind; [| intro]
  | |- always _ (try_except_KeyboardInterrupt _ _) => apply always_try
  | |- always _ (while_true _ _) => apply always_while
  | |- always _ (if ?b then _ else _) => destruct b
  | |- always _ (match ?x with _ => _ end) => destruct x
  end.

Section Leaves.

Variable P : event -> Prop.
Variable w : World.

(** [P] holds of every line on standard output but, possibly, the skip
    line of the test cycle; of the status polls and of the waits, with the
    replies they get in [w]. *)
Hypothesis P_line : forall t e, is_skip_line (Stdout t e) = false -> P (Stdout t e).
Hypothesis P_status : forall n, P (Status (get_reply w n)).
Hypothesis P_sleep : forall k n, P (Sleep k (sleep_reply w n)).

Lemma always_display_status (v : value) : always P (display_status v).
Proof.
  unfold display_status.
  assert (Hcollect : forall names apps, always P (collect_states apps names)).
  { induction names as [| n names IH]; intro apps; simpl; repeat always_step; apply IH. }
  repeat always_step; try apply Hcollect; apply always_emit, P_line;
    first
      [ reflexivity
      | match goal with
        | |- is_skip_line (Stdout (_ :: ?t) _) = false => destruct t; reflexivity
        end ].
Qed.

Lemma always_requests_get : always P (requests_get w).
Proof. intro s. constructor; [apply P_status | constructor]. Qed.

Lemma always_poll_status : always P (poll_status w).
Proof.
  unfold poll_status, get_status.
  repeat always_step; first [apply always_display_status | apply always_requests_get].
Qed.

Lemma always_time_sleep (k : nat) : always P (time_sleep w k).
Proof. intro s. constructor; [apply P_sleep | constructor]. Qed.

Lemma always_send (p : payload) (d : string) :
  (forall n, P (Control p (post_reply w n))) -> always P (send_control_command w p d).
Proof.
  intro Hp. unfold send_control_command.
  apply always_bind; [intro s; constructor |]. intro timestamp.
  apply always_bind; [apply always_emit, P_line; reflexivity |]. intros _.
  apply always_bind; [intro s; constructor; [apply Hp | constructor] |]. intro response.
  destruct response as [code body | | | msg |]; repeat always_step;
    apply always_emit, P_line; reflexivity.
Qed.

End Leaves.

Section Whole.

Variable P : event -> Prop.
Variable w : World.

Hypothesis P_stdout : forall t e, P (Stdout t e).
Hypothesis P_status : forall n, P (Status (get_reply w n)).
Hypothesis P_sleep : forall k n, P (Sleep k (sleep_reply w n)).
Hypothesis P_all_off : forall n, P (Control all_off_payload (post_reply w n)).
Hypothesis P_single_on : forall x n, P (Control (single_on_payload x) (post_reply w n)).

Let P_line : forall t e, is_skip_line (Stdout t e) = false -> P (Stdout t e) :=
  fun t e _ => P_stdout t e.

Ltac script_step :=
  lazymatch goal with
  | |- always _ (print _) => apply always_emit, P_stdout
  | |- always _ (print_text _) => apply always_emit, P_stdout
  | |- always _ (print_end _ _) => apply always_emit, P_stdout
  | |- always _ (time_sleep _ _) => apply always_time_sleep, P_sleep
  | |- always _ (poll_status _) => apply always_poll_status; [exact P_line | exact P_status]
  | |- always _ (turn_all_off _) => apply always_send; [exact P_line | exact P_all_off]
  | |- always _ (turn_on_single _ ?x) =>
      apply always_send; [exact P_line | exact (P_single_on x)]
  | |- always _ (send_control_command _ (map _ APPLIANCES) (?x ++ " ON")) =>
      apply always_send; [exact P_line | exact (P_single_on x)]
  | |- always _ (send_control_command _ (map _ APPLIANCES) _) =>
      apply always_send; [exact P_line | exact P_all_off]
  | |- _ => always_step
  end.

Lemma always_test_each (apps : list string) : forall i, always P (test_each w i apps).
Proof.
  induction apps as [| a apps IH]; intro i; simpl; repeat script_step. apply IH.
Qed.

Lemma always_run_test_cycle : always P (run_test_cycle w).
Proof.
  unfold run_test_cycle. repeat script_step. apply always_test_each.
Qed.

Lemma always_interrupted_cleanup : always P (interrupted_cleanup w).
Proof. unfold interrupted_cleanup. repeat script_step. Qed.

Lemma always_continuous_mode (fuel : nat) : always P (continuous_mode w fuel).
Proof.
  unfold continuous_mode, continuous_body, incr_cycle_count.
  repeat script_step;
    lazymatch goal with
    | |- always _ (run_test_cycle _) => apply always_run_test_cycle
    | |- always _ (interrupted_cleanup _) => apply always_interrupted_cleanup
    end.
Qed.

Lemma always_single_appliance_mode (fuel : nat) (x : string) :
  always P (single_appliance_mode w fuel x).
Proof.
  unfold single_appliance_mode, single_appliance_body, incr_cycle_count.
  repeat script_step; apply always_interrupted_cleanup.
Qed.

Lemma always_main (fuel : nat) (argv : list string) : always P (main w fuel argv).
Proof.
  unfold main, print_header.
  repeat script_step;
    lazymatch goal with
    | |- always _ (single_appliance_mode _ _ _) => apply always_single_appliance_mode
    | |- always _ (continuous_mode _ _) => apply always_continuous_mode
    | |- always _ (run_test_cycle _) => apply always_run_test_cycle
    end.
Qed.

End Whole.

(** ** Every payload of a run is well formed *)

Lemma sent_well_formed (tr : list event) :
  Forall payload_ok tr -> Forall well_formed (sent tr).
Proof.
  induction 1 as [| e tr He _ IH]; [constructor |].
  destruct e as [t e | p r | r | n r]; simpl; try exact IH.
  constructor; [exact He | exact IH].
Qed.

Lemma payloads_main (w : World) (fuel : nat) (argv : list string) :
  always payload_ok (main w fuel argv).
Proof.
  apply always_main; intros; try exact I.
  - exact all_off_well_formed.
  - apply single_on_well_formed.
Qed.

(** C2. Whatever the mode, the arguments and the behaviour of the device
    and the operator, every payload the program posts has one entry per
    configured appliance, in order, and at most one entry with action ON.
    [turn_all_off] posts, from any store, the one payload whose entries all
    have action OFF. *)
Theorem every_payload_well_formed :
  forall (w : World) (fuel : nat) (argv : list string) (s : store),
    Forall well_formed (sent (trace (main w fuel argv s))) /\
    sent (trace (turn_all_off w s)) = [all_off_payload] /\
    map name all_off_payload = APPLIANCES /\
    Forall (fun e => action e = OFF) all_off_payload.
Proof.
  intros w fuel argv s. split; [| split; [| split]].
  - apply sent_well_formed, payloads_main.
  - unfold turn_all_off, sent. rewrite controls_send. reflexivity.
  - reflexivity.
  - repeat constructor.
Qed.

(** ** Computations that leave the store alone *)

Lemma stateless_ret {A} (a : A) : stateless (ret a).
Proof. intro s. repeat split. Qed.

Lemma stateless_raise {A} (e : exn) : stateless (@raise A e).
Proof. intro s. repeat split. Qed.

Lemma stateless_emit (e : event) : stateless (emit e).
Proof. intro s. repeat split. Qed.

Lemma stateless_bind {A B} (m : M A) (k : A -> M B) :
  stateless m -> (forall a, stateless (k a)) -> stateless (bind m k).
Proof.
  intros Hm Hk s. destruct (Hm s) as [Hf [Hr Ht]]. destruct (Hm init) as [Hf0 _].
  rewrite !final_bind, !result_bind, !trace_bind, Hf, Hf0, Hr, Ht.
  destruct (result (m init)) as [a | e |]; [| repeat split | repeat split].
  destruct (Hk a s) as [Hkf [Hkr Hkt]]. rewrite Hkf, Hkr, Hkt. repeat split.
Qed.

Lemma stateless_py_in (key : string) (container : value) : stateless (py_in key container).
Proof. destruct container; intros ?; repeat split. Qed.

Lemma stateless_py_get (container : value) (key : string) (default : value) :
  stateless (py_get container key default).
Proof. destruct container; intros ?; repeat split. Qed.

Lemma stateless_py_getitem (container : value) (key : string) :
  stateless (py_getitem container key).
Proof.
  destruct container; unfold py_getitem; try destruct (lookup key members);
    intros ?; repeat split.
Qed.

Lemma stateless_temp_str (temp : value) : stateless (temp_str temp).
Proof.
  intro s. destruct (temp_str_quiet temp s) as [r [Hs Hr]].
  destruct (temp_str_quiet temp init) as [r0 [H0 _]].
  assert (r = r0).
  { unfold temp_str in Hs, H0.
    destruct (py_eq_float temp minus_127_0); [inversion Hs; inversion H0; congruence |].
    destruct (is_int_or_float temp); [| inversion Hs; inversion H0; congruence].
    destruct temp as [| b | n | f | t | items | members]; cbn in Hs, H0;
      try (inversion Hs; inversion H0; congruence).
    destruct (float_overflows n); inversion Hs; inversion H0; congruence. }
  subst r0. rewrite Hs, H0. repeat split.
Qed.

Ltac stateless_step :=
  lazymatch goal with
  | |- stateless (temp_str _) => apply stateless_temp_str
  | |- stateless (ret _) => apply stateless_ret
  | |- stateless (raise _) => apply stateless_raise
  | |- stateless (print _) => apply stateless_emit
  | |- stateless (print_text _) => apply stateless_emit
  | |- stateless (py_in _ _) => apply stateless_py_in
  | |- stateless (py_get _ _ _) => apply stateless_py_get
  | |- stateless (py_getitem _ _) => apply stateless_py_getitem
  | |- stateless (bind _ _) => apply stateless_bind; [| intro]
  | |- stateless (if ?b then _ else _) => destruct b
  | |- stateless (match ?x with _ => _ end) => destruct x
  end.

Lemma stateless_collect_states (names : list string) :
  forall appliances, stateless (collect_states appliances names).
Proof.
  induction names as [| n names IH]; intro appliances; simpl; repeat stateless_step.
  apply IH.
Qed.

Lemma stateless_display_status (v : value) : stateless (display_status v).
Proof.
  unfold display_status. repeat stateless_step. apply stateless_collect_states.
Qed.

(** ** Summaries *)

Lemma summary_app (t1 t2 : list event) :
  summary (t1 ++ t2) = add_summary (summary t1) (summary t2).
Proof.
  unfold summary, add_summary.
  rewrite controls_app, polls_app, count_if_app, length_app. reflexivity.
Qed.

Lemma summary_silent (tr : list event) :
  Forall (fun e => silent e = true) tr -> summary tr = ([], 0, 0).
Proof.
  induction 1 as [| e tr He _ IH]; [reflexivity |].
  destruct e as [t e | p r | r | n r]; try discriminate.
  unfold silent in He. apply negb_true_iff in He.
  unfold summary, count_if in *. cbn [controls polls filter].
  destruct (is_skip_line (Stdout t e)); [discriminate He | exact IH].
Qed.

Lemma summary_display_status (v : value) (s : store) :
  summary (trace (display_status v s)) = ([], 0, 0).
Proof.
  apply summary_silent.
  apply (always_display_status (fun e => silent e = true)).
  intros t e H. unfold silent. rewrite H. reflexivity.
Qed.

Lemma summary_send (w : World) (p : payload) (d : string) (s : store) :
  summary (trace (send_control_command w p d s)) = ([(p, post_reply w (posts s))], 0, 0).
Proof.
  unfold send_control_command, bind, datetime_now_strftime, print_end, emit,
    requests_post, trace. simpl.
  destruct (post_reply w (posts s)) as [code body | | | msg |]; simpl; try reflexivity.
  destruct (code =? 200)%nat; reflexivity.
Qed.

Lemma result_get_status (w : World) (s : store) :
  result (get_status w s) =
  Ret match get_reply w (gets s) with
      | StatusResponse code (Some data) => if (code =? 200)%nat then data else JNull
      | _ => JNull
      end.
Proof.
  unfold get_status, bind, requests_get, result. simpl.
  destruct (get_reply w (gets s)) as [code [data |] | |]; simpl; try reflexivity;
    destruct (code =? 200)%nat; reflexivity.
Qed.

Lemma trace_get_status (w : World) (s : store) :
  trace (get_status w s) = [Status (get_reply w (gets s))].
Proof.
  unfold get_status, bind, requests_get, trace. simpl.
  destruct (get_reply w (gets s)) as [code [data |] | |]; simpl; try reflexivity;
    destruct (code =? 200)%nat; reflexivity.
Qed.

Lemma summary_poll_status (w : World) (s : store) :
  summary (trace (poll_status w s)) = ([], 1, 0).
Proof.
  unfold poll_status. rewrite trace_bind, summary_app, trace_get_status, result_get_status.
  match goal with
  | |- context [truthy ?v] => destruct (truthy v)
  end.
  - rewrite summary_display_status. reflexivity.
  - reflexivity.
Qed.

Lemma result_poll_status (w : World) (s : store) :
  status_displays (get_reply w (gets s)) = true -> result (poll_status w s) = Ret tt.
Proof.
  intro H. unfold poll_status. rewrite result_bind, result_get_status.
  unfold status_displays in H.
  destruct (get_reply w (gets s)) as [code [data |] | |]; try reflexivity;
    destruct (code =? 200)%nat; try reflexivity.
  destruct (truthy data); [| reflexivity].
  destruct (stateless_display_status data (final (get_status w s))) as [_ [Hr _]].
  rewrite Hr. unfold display_ok in H.
  destruct (result (display_status data init)) as [[] | e |]; [reflexivity | discriminate ..].
Qed.

(** ** Runs nobody disturbs *)

Lemma returns_ret {A} (a : A) (Q : A -> list event -> Prop) : Q a [] -> returns (ret a) Q.
Proof. intros H s. exists a. split; [reflexivity | exact H]. Qed.

Lemma returns_bind {A B} (m : M A) (k : A -> M B)
    (Q1 : A -> list event -> Prop) (Q : B -> list event -> Prop) :
  returns m Q1 ->
  (forall a t1, Q1 a t1 -> returns (k a) (fun b t2 => Q b (t1 ++ t2)%list)) ->
  returns (bind m k) Q.
Proof.
  intros Hm Hk s. destruct (Hm s) as [a [Hr HQ1]].
  destruct (Hk a _ HQ1 (final (m s))) as [b [Hrb HQ]].
  exists b. rewrite result_bind, trace_bind, Hr. split; assumption.
Qed.

Lemma returns_weaken {A} (m : M A) (Q1 Q2 : A -> list event -> Prop) :
  returns m Q1 -> (forall a t, Q1 a t -> Q2 a t) -> returns m Q2.
Proof.
  intros Hm HQ s. destruct (Hm s) as [a [Hr H1]]. exists a. split; [exact Hr | auto].
Qed.

Lemma returns_print (x : string) :
  is_skip_line (Stdout [Lit x] LF) = false ->
  returns (print x) (fun _ t => summary t = ([], 0, 0)).
Proof.
  intros H s. exists tt. split; [reflexivity |].
  unfold print, print_text. rewrite trace_emit. unfold summary, count_if. cbn [filter controls polls].
  rewrite H. reflexivity.
Qed.

Lemma returns_skip_line :
  returns (print (YELLOW ++ "  Skipping to next appliance..." ++ RESET))
          (fun _ t => summary t = ([], 0, 1)).
Proof. intro s. exists tt. split; reflexivity. Qed.

Section Undisturbed.

Variable w : World.
Hypothesis Hw : undisturbed w.

Lemma returns_time_sleep (k : nat) :
  returns (time_sleep w k) (fun _ t => summary t = ([], 0, 0)).
Proof.
  intro s. exists tt. unfold time_sleep, result, trace. simpl.
  rewrite (sleeps_elapse w Hw). split; reflexivity.
Qed.

Lemma returns_poll_status :
  returns (poll_status w) (fun _ t => summary t = ([], 1, 0)).
Proof.
  intro s. exists tt. split; [| apply summary_poll_status].
  apply result_poll_status, (statuses_display w Hw).
Qed.

Lemma returns_send (p : payload) (d : string) :
  returns (send_control_command w p d)
          (fun ok t => exists r, ok = send_ok r /\ send_fails r = negb (send_ok r) /\
                                 summary t = ([(p, r)], 0, 0)).
Proof.
  intro s. exists (send_ok (post_reply w (posts s))). rewrite result_send, summary_send.
  pose proof (posts_return w Hw (posts s)) as Hni.
  split.
  - destruct (post_reply w (posts s)); try reflexivity. contradiction Hni. reflexivity.
  - exists (post_reply w (posts s)). repeat split.
    destruct (post_reply w (posts s)) as [code body | | | msg |]; try reflexivity.
    contradiction Hni. reflexivity.
Qed.

(** Brings the summary of a trace put together from summarised parts to
    the sum of their summaries. *)
Ltac summarise :=
  cbv beta in *;
  rewrite ?summary_app;
  repeat match goal with
         | H : summary _ = _ |- _ => rewrite H; clear H
         end;
  cbn [add_summary app Nat.add].

Lemma test_each_undisturbed (apps : list string) :
  forall i, returns (test_each w i apps) (fun _ t => pass_summary apps (summary t)).
Proof.
  induction apps as [| a apps IH]; intro i; cbn [test_each].
  - apply returns_ret. repeat split.
  - eapply returns_bind; [apply returns_print; reflexivity |]. intros ? t1 H1.
    eapply returns_bind; [apply returns_send |]. intros ok t2 [r [Hok [Hfail H2]]]. subst ok.
    eapply returns_bind with
      (Q1 := fun _ t => summary t = ([], (if send_ok r then 1 else 0),
                                     (if send_ok r then 0 else 1))).
    + destruct (send_ok r); cbn [negb].
      * eapply returns_bind; [apply returns_time_sleep |]. intros ? t3 H3.
        eapply returns_bind; [apply returns_poll_status |]. intros ? t4 H4.
        eapply returns_bind; [apply returns_print; reflexivity |]. intros ? t5 H5.
        eapply returns_weaken; [apply returns_time_sleep |].
        cbv beta. intros ? t6 H6. summarise. reflexivity.
      * eapply returns_bind; [apply returns_skip_line |]. intros ? t3 H3.
        eapply returns_weaken; [apply returns_time_sleep |].
        cbv beta. intros ? t4 H4. summarise. reflexivity.
    + intros ? t3 H3. eapply returns_weaken; [apply IH |].
      cbv beta. intros ? t4 H4. cbv beta in *.
      rewrite !summary_app, H1, H2, H3.
      destruct (summary t4) as [[calls npolls] nskips].
      destruct H4 as [Hc [Hp Hk]]. cbn [add_summary app Nat.add pass_summary].
      unfold count_if in *. cbn [map fst filter snd]. rewrite Hfail.
      destruct (send_ok r); cbn [negb length Nat.add]; rewrite Hc, Hp, Hk; repeat split.
Qed.

(** The part of [run_test_cycle] after a first all-off that succeeded. *)
Lemma rest_of_cycle_undisturbed :
  returns (time_sleep w 1 ;;
           poll_status w ;;
           time_sleep w 2 ;;
           test_each w 1 APPLIANCES ;;
           print (LF ++ BOLD ++ "Finishing test cycle..." ++ RESET ++ LF) ;;
           turn_all_off w ;;
           time_sleep w 1 ;;
           poll_status w ;;
           ret true)
          (fun ok t =>
             ok = true /\
             exists mid last,
               pass_summary APPLIANCES (mid, length (polls t) - 2, count_if is_skip_line t) /\
               2 <= length (polls t) /\
               controls t = (mid ++ [(all_off_payload, last)])%list).
Proof.
  eapply returns_bind; [apply returns_time_sleep |]. intros ? t1 H1.
  eapply returns_bind; [apply returns_poll_status |]. intros ? t2 H2.
  eapply returns_bind; [apply returns_time_sleep |]. intros ? t3 H3.
  eapply returns_bind; [apply test_each_undisturbed |]. intros ? t4 H4.
  eapply returns_bind; [apply returns_print; reflexivity |]. intros ? t5 H5.
  eapply returns_bind; [apply returns_send |]. intros ok t6 [r [_ [_ H6]]].
  eapply returns_bind; [apply returns_time_sleep |]. intros ? t7 H7.
  eapply returns_bind; [apply returns_poll_status |]. intros ? t8 H8.
  apply returns_ret. split; [reflexivity |]. cbv beta in *.
  destruct (summary t4) as [[calls npolls] nskips] eqn:E4.
  exists calls, r.
  assert (Hsum : summary (t1 ++ t2 ++ t3 ++ t4 ++ t5 ++ t6 ++ t7 ++ t8 ++ [])
                 = ((calls ++ [(all_off_payload, r)])%list,
                    S (npolls + 1), nskips + 0)).
  { rewrite !summary_app, H1, H2, H3, E4, H5, H6, H7, H8.
    cbn [add_summary app Nat.add summary controls polls count_if filter length].
    rewrite !Nat.add_0_r. reflexivity. }
  unfold summary in Hsum. inversion Hsum as [[Hc Hp Hk]].
  rewrite Hc, Hp, Hk.
  destruct H4 as [Hn [Hpolls Hskips]].
  repeat split; try assumption; lia.
Qed.

End Undisturbed.

Lemma result_print (x : string) (s : store) : result (print x s) = Ret tt.
Proof. reflexivity. Qed.

Lemma final_print (x : string) (s : store) : final (print x s) = s.
Proof. reflexivity. Qed.

Lemma summary_print (x : string) (s : store) :
  is_skip_line (Stdout [Lit x] LF) = false -> summary (trace (print x s)) = ([], 0, 0).
Proof.
  intro H. destruct (returns_print x H s) as [_ [_ Hs]]. exact Hs.
Qed.

Lemma result_bind_never {A} (m : M A) (k : A -> M bool) (b : bool) :
  (forall a s, result (k a s) <> Ret b) -> forall s, result (bind m k s) <> Ret b.
Proof.
  intros Hk s. rewrite result_bind.
  destruct (result (m s)); [apply Hk | discriminate | discriminate].
Qed.

Lemma run_test_cycle_false_iff (w : World) (s : store) :
  result (run_test_cycle w s) = Ret false <-> send_fails (post_reply w (posts s)) = true.
Proof.
  unfold run_test_cycle. rewrite result_bind, result_print, final_print, result_bind.
  unfold turn_all_off at 1. rewrite result_send.
  assert (Hrest : forall ok s',
             ok = true ->
             result ((if negb ok
                      then print (LF ++ RED ++ "Failed to initialize. Check connection and try again."
                                     ++ RESET ++ LF) ;; ret false
                      else time_sleep w 1 ;; poll_status w ;; time_sleep w 2 ;;
                           test_each w 1 APPLIANCES ;;
                           print (LF ++ BOLD ++ "Finishing test cycle..." ++ RESET ++ LF) ;;
                           turn_all_off w ;; time_sleep w 1 ;; poll_status w ;; ret true) s')
             <> Ret false).
  { intros ok s' ->. cbn [negb].
    repeat (apply result_bind_never; intros). discriminate. }
  destruct (post_reply w (posts s)) as [code body | | | msg |]; cbn [send_ok send_fails].
  - destruct (code =? 200)%nat eqn:E; cbn [negb].
    + split; [intro H; exfalso; revert H; apply (Hrest true); reflexivity | discriminate].
    + split; reflexivity.
  - split; reflexivity.
  - split; reflexivity.
  - split; reflexivity.
  - split; discriminate.
Qed.

Lemma result_turn_all_off (w : World) (s : store) :
  result (turn_all_off w s) =
  match post_reply w (posts s) with
  | RaisesKeyboardInterrupt => Raise KeyboardInterrupt
  | r => Ret (send_ok r)
  end.
Proof. apply result_send. Qed.

Lemma summary_turn_all_off (w : World) (s : store) :
  summary (trace (turn_all_off w s)) = ([(all_off_payload, post_reply w (posts s))], 0, 0).
Proof. apply summary_send. Qed.

Lemma run_test_cycle_undisturbed (w : World) (s : store) :
  undisturbed w ->
  send_ok (post_reply w (posts s)) = true ->
  result (run_test_cycle w s) = Ret true /\
  cycle_summary (summary (trace (run_test_cycle w s))).
Proof.
  intros Hw Hok. unfold run_test_cycle.
  rewrite result_bind, trace_bind, result_print, final_print, result_bind, trace_bind.
  rewrite result_turn_all_off.
  assert (Hreply : match post_reply w (posts s) with
                   | RaisesKeyboardInterrupt => Raise KeyboardInterrupt
                   | r => Ret (send_ok r)
                   end = Ret true).
  { rewrite <- Hok. destruct (post_reply w (posts s)); try reflexivity. discriminate. }
  rewrite Hreply. cbn [negb].
  destruct (rest_of_cycle_undisturbed w Hw (final (turn_all_off w s)))
    as [ok [Hr [-> [mid [last [Hpass [Hge Hc]]]]]]].
  split; [exact Hr |].
  rewrite !summary_app, summary_print, summary_turn_all_off by reflexivity.
  unfold summary at 1. rewrite Hc. cbn [add_summary app Nat.add].
  destruct Hpass as [Hn [Hp Hk]].
  exists (post_reply w (posts s)), mid, last. repeat split; try assumption. lia.
Qed.

(** C6. [run_test_cycle] returns [False] exactly when its first all-off
    send fails.  When that send succeeds, and unless the operator interrupts
    or a status cannot be displayed, the cycle returns [True] whatever the
    replies to the later sends and to the status requests: it has tried
    every configured appliance in order, has printed one skip line per
    single-on send that failed, and has ended with an all-off call. *)
Theorem run_test_cycle_result :
  forall (w : World) (s : store),
    let reply := post_reply w (posts s) in
    let run := run_test_cycle w s in
    (result run = Ret false <-> send_fails reply = true) /\
    (undisturbed w -> send_ok reply = true ->
     result run = Ret true /\
     exists first mid last,
       controls (trace run)
         = ((all_off_payload, first) :: mid ++ [(all_off_payload, last)])%list /\
       map fst mid = map single_on_payload APPLIANCES /\
       count_if is_skip_line (trace run) = count_if (fun c => send_fails (snd c)) mid /\
       length (polls (trace run)) = 2 + count_if (fun c => send_ok (snd c)) mid).
Proof.
  intros w s reply run. subst reply run. split.
  - apply run_test_cycle_false_iff.
  - intros Hw Hok. destruct (run_test_cycle_undisturbed w s Hw Hok) as [Hr Hs].
    split; [exact Hr |]. exact Hs.
Qed.

Lemma healthy_undisturbed : undisturbed healthy.
Proof.
  constructor; intro n; simpl; [reflexivity | discriminate | reflexivity].
Qed.

Lemma run_test_cycle_result_witness :
  undisturbed healthy /\
  send_ok (post_reply healthy (posts init)) = true /\
  result (run_test_cycle healthy init) = Ret true.
Proof.
  assert (H2 : send_ok (post_reply healthy (posts init)) = true) by reflexivity.
  split; [exact healthy_undisturbed | split; [exact H2 |]].
  exact (proj1 (proj2 (run_test_cycle_result healthy init) healthy_undisturbed H2)).
Defined.

(** ** The single cycle, end to end *)

Lemma count_if_all {A} (f : A -> bool) (l : list A) :
  Forall (fun x => f x = true) l -> count_if f l = length l.
Proof.
  unfold count_if. induction 1 as [| x l Hx _ IH]; simpl; [reflexivity |].
  rewrite Hx. simpl. now rewrite IH.
Qed.

Lemma controls_succeeded (tr : list event) :
  Forall control_succeeded tr -> Forall (fun c => send_ok (snd c) = true) (controls tr).
Proof.
  induction 1 as [| e tr He _ IH]; [constructor |].
  destruct e as [t e | p r | r | n r]; simpl; try exact IH.
  constructor; [exact He | exact IH].
Qed.

Lemma returns_print_header : returns print_header (fun _ t => summary t = ([], 0, 0)).
Proof.
  unfold print_header.
  repeat (eapply returns_bind; [apply returns_print; reflexivity |]; intros ? ? ?).
  eapply returns_weaken; [apply returns_print; reflexivity |].
  intros ? tlast Hlast. cbv beta in *. rewrite !summary_app.
  repeat match goal with
         | H : summary _ = _ |- _ => rewrite H; clear H
         end.
  reflexivity.
Qed.

Section AllAnswers200.

Variable w : World.
Hypothesis Hw : undisturbed w.
Hypothesis H200 : answers_200 w.

Lemma every_send_ok (n : nat) : send_ok (post_reply w n) = true.
Proof. destruct (control_200 w H200 n) as [body ->]. reflexivity. Qed.

Lemma returns_run_test_cycle :
  returns (run_test_cycle w) (fun ok t => ok = true /\ cycle_summary (summary t)).
Proof.
  intro s. exists true.
  destruct (run_test_cycle_undisturbed w s Hw (every_send_ok (posts s))) as [Hr Hs].
  split; [exact Hr | split; [reflexivity | exact Hs]].
Qed.

Lemma main_single_cycle (fuel : nat) (prog : string) :
  returns (main w fuel [prog]) (fun _ t => cycle_summary (summary t)).
Proof.
  unfold main. cbn [length Nat.ltb Nat.leb andb].
  eapply returns_bind; [apply returns_print_header |]. intros ? t0 H0.
  eapply returns_bind; [apply returns_print; reflexivity |]. intros ? t1 H1.
  eapply returns_bind; [apply returns_print; reflexivity |]. intros ? t2 H2.
  eapply returns_bind; [apply returns_run_test_cycle |]. intros ok t3 [-> H3].
  repeat (eapply returns_bind; [apply returns_print; reflexivity |]; intros ? ? ?).
  eapply returns_weaken; [apply returns_print; reflexivity |].
  intros ? tlast Hlast. cbv beta in *. rewrite !summary_app.
  destruct (summary t3) as [[calls npolls] nskips].
  repeat match goal with
         | H : summary _ = _ |- _ => rewrite H; clear H
         end.
  cbn [add_summary app Nat.add]. rewrite app_nil_r, !Nat.add_0_r. exact H3.
Qed.

Lemma main_controls_succeeded (fuel : nat) (argv : list string) :
  always control_succeeded (main w fuel argv).
Proof.
  apply always_main; intros; try exact I; apply every_send_ok.
Qed.

End AllAnswers200.

(** C8, as amended.  Single-cycle mode against a device that answers every
    control and status request with 200, when moreover every status it
    reports is one [display_status] can show and the operator does not
    interrupt: the program posts exactly N+2 commands, N the number of
    configured appliances -- an all-off, one single-on per appliance in
    order, an all-off --, polls the status N+2 times, and [main] returns,
    so the process ends with status 0. *)
Theorem single_cycle_against_healthy_device :
  forall (w : World) (fuel : nat) (prog : string),
    answers_200 w ->
    undisturbed w ->
    let run := main w fuel [prog] init in
    result run = Ret tt /\
    exit_code (result run) = Some 0 /\
    sent (trace run)
      = (all_off_payload :: map single_on_payload APPLIANCES ++ [all_off_payload])%list /\
    length (controls (trace run)) = length APPLIANCES + 2 /\
    length (polls (trace run)) = length APPLIANCES + 2 /\
    length (polls (trace run)) >= length APPLIANCES + 2.
Proof.
  intros w fuel prog H200 Hw run. subst run.
  destruct (main_single_cycle w Hw H200 fuel prog init) as [[] [Hr Hs]].
  pose proof (controls_succeeded _ (main_controls_succeeded w H200 fuel [prog] init)) as Hall.
  unfold summary, cycle_summary in Hs.
  destruct Hs as [first [mid [last [Hc [Hmid [_ Hpolls]]]]]].
  rewrite Hc in Hall. inversion Hall as [| ? ? _ Hrest]; subst.
  apply Forall_app in Hrest. destruct Hrest as [Hmid_ok _].
  rewrite (count_if_all _ _ Hmid_ok) in Hpolls.
  assert (Hlen : length mid = length APPLIANCES).
  { rewrite <- (length_map fst mid), Hmid. apply length_map. }
  rewrite Hr. unfold sent. rewrite Hc, Hpolls, Hlen.
  split; [reflexivity |]. split; [reflexivity |].
  split.
  { cbn [map fst]. rewrite map_app, Hmid. reflexivity. }
  cbn [length]. rewrite length_app, Hlen. cbn [length]. lia.
Qed.

Lemma healthy_answers_200 : answers_200 healthy.
Proof.
  constructor; intro n; simpl; eexists; reflexivity.
Qed.

Lemma single_cycle_against_healthy_device_witness :
  answers_200 healthy /\
  undisturbed healthy /\
  result (main healthy 1 ["relay_switcher.py"] init) = Ret tt /\
  length (controls (trace (main healthy 1 ["relay_switcher.py"] init))) = length APPLIANCES + 2.
Proof.
  destruct (single_cycle_against_healthy_device healthy 1 "relay_switcher.py"
              healthy_answers_200 healthy_undisturbed) as [Hr [_ [_ [Hc _]]]].
  split; [exact healthy_answers_200 | split; [exact healthy_undisturbed |]].
  split; [exact Hr | exact Hc].
Defined.

(** The claim as the spec has it asks of the device only that it answers
    200.  [garbled] does, and the operator keeps away, yet its status has
    an entry without ["state"]: the single cycle ends by [KeyError], with
    status 1, after one command and one poll.  And against the healthy
    device an operator who presses Ctrl+C during the first wait ends the
    run by [KeyboardInterrupt] after one command. *)
Lemma single_cycle_cut_short :
  (answers_200 garbled /\
   (forall n, sleep_reply garbled n = Elapsed) /\
   result (main garbled 1 ["relay_switcher.py"] init) = Raise KeyError /\
   exit_code (result (main garbled 1 ["relay_switcher.py"] init)) = Some 1 /\
   length (controls (trace (main garbled 1 ["relay_switcher.py"] init))) = 1 /\
   length (polls (trace (main garbled 1 ["relay_switcher.py"] init))) = 1) /\
  (answers_200 (interrupt_in_sleep 0) /\
   result (main (interrupt_in_sleep 0) 1 ["relay_switcher.py"] init)
   = Raise KeyboardInterrupt /\
   length (controls (trace (main (interrupt_in_sleep 0) 1 ["relay_switcher.py"] init))) = 1).
Proof.
  split.
  - split; [constructor; intro n; simpl; eexists; reflexivity |].
    split; [intro n; reflexivity |].
    repeat split; vm_compute; reflexivity.
  - split; [constructor; intro n; simpl; eexists; reflexivity |].
    split; vm_compute; reflexivity.
Qed.

(** ** Where an interrupt goes *)

Lemma no_interrupt_events (tr : list event) :
  Forall (fun e => raises_interrupt e = false) tr -> after_interrupt tr = None.
Proof.
  induction 1 as [| e tr He _ IH]; simpl; [reflexivity |]. rewrite He. exact IH.
Qed.

Lemma gentle_ret {A} (a : A) : gentle (ret a).
Proof. intro s. exact I. Qed.

Lemma gentle_emit (e : event) : gentle (emit e).
Proof. intro s. exact I. Qed.

Lemma gentle_bind {A B} (m : M A) (k : A -> M B) :
  gentle m -> (forall a, gentle (k a)) -> gentle (bind m k).
Proof.
  intros Hm Hk s. rewrite result_bind. specialize (Hm s).
  destruct (result (m s)) as [a | e |]; [apply Hk | exact Hm | exact Hm].
Qed.

Lemma gentle_py_in (key : string) (container : value) : gentle (py_in key container).
Proof. destruct container; intros ?; exact I. Qed.

Lemma gentle_py_get (container : value) (key : string) (default : value) :
  gentle (py_get container key default).
Proof. destruct container; intros ?; exact I. Qed.

Lemma gentle_py_getitem (container : value) (key : string) :
  gentle (py_getitem container key).
Proof.
  destruct container; unfold py_getitem; try destruct (lookup key members);
    intros ?; exact I.
Qed.

Lemma gentle_temp_str (temp : value) : gentle (temp_str temp).
Proof.
  intro s. destruct (temp_str_quiet temp s) as [r [-> [-> | [t ->]]]]; exact I.
Qed.

Ltac gentle_step :=
  lazymatch goal with
  | |- gentle (temp_str _) => apply gentle_temp_str
  | |- gentle (ret _) => apply gentle_ret
  | |- gentle (print _) => apply gentle_emit
  | |- gentle (print_text _) => apply gentle_emit
  | |- gentle (py_in _ _) => apply gentle_py_in
  | |- gentle (py_get _ _ _) => apply gentle_py_get
  | |- gentle (py_getitem _ _) => apply gentle_py_getitem
  | |- gentle (bind _ _) => apply gentle_bind; [| intro]
  | |- gentle (if ?b then _ else _) => destruct b
  | |- gentle (match ?x with _ => _ end) => destruct x
  end.

Lemma gentle_collect_states (names : list string) :
  forall appliances, gentle (collect_states appliances names).
Proof.
  induction names as [| n names IH]; intro appliances; simpl; repeat gentle_step.
  apply IH.
Qed.

Lemma gentle_display_status (v : value) : gentle (display_status v).
Proof.
  unfold display_status. repeat gentle_step. apply gentle_collect_states.
Qed.

Lemma gentle_poll_status (w : World) : gentle (poll_status w).
Proof.
  unfold poll_status. intro s. rewrite result_bind, result_get_status.
  match goal with
  | |- context [truthy ?v] => destruct (truthy v)
  end; [apply gentle_display_status | exact I].
Qed.

Lemma disciplined_ret {A} (a : A) : disciplined (ret a).
Proof. intro s. reflexivity. Qed.

Lemma disciplined_sys_exit {A} (code : nat) : disciplined (@sys_exit A code).
Proof. intro s. reflexivity. Qed.

Lemma disciplined_out_of_fuel {A} : disciplined (@out_of_fuel A).
Proof. intro s. reflexivity. Qed.

Lemma disciplined_stdout (t : text) (e : string) : disciplined (emit (Stdout t e)).
Proof. intro s. reflexivity. Qed.

Lemma disciplined_set_cycle_count (n : nat) : disciplined (set_cycle_count n).
Proof. intro s. reflexivity. Qed.

Lemma disciplined_get_cycle_count : disciplined get_cycle_count.
Proof. intro s. reflexivity. Qed.

Lemma disciplined_bind {A B} (m : M A) (k : A -> M B) :
  disciplined m -> (forall a, disciplined (k a)) -> disciplined (bind m k).
Proof.
  intros Hm Hk s. unfold interrupt_law. rewrite result_bind, trace_bind, after_interrupt_app.
  specialize (Hm s). unfold interrupt_law in Hm.
  destruct (result (m s)) as [a | [] |]; rewrite Hm; try reflexivity.
  apply Hk.
Qed.

Lemma disciplined_while (fuel : nat) (body : M flow) :
  disciplined body -> disciplined (while_true fuel body).
Proof.
  intro Hb. induction fuel as [| fuel IH]; simpl.
  - apply disciplined_out_of_fuel.
  - apply disciplined_bind; [exact Hb |]. intros [|]; [exact IH | apply disciplined_ret].
Qed.

Lemma disciplined_time_sleep (w : World) (k : nat) : disciplined (time_sleep w k).
Proof.
  intro s. unfold time_sleep, interrupt_law, result, trace. simpl.
  destruct (sleep_reply w (sleeps s)); reflexivity.
Qed.

Lemma disciplined_send (w : World) (p : payload) (d : string) :
  disciplined (send_control_command w p d).
Proof.
  intro s. unfold interrupt_law. rewrite result_send.
  unfold send_control_command, bind, datetime_now_strftime, print_end, emit,
    requests_post, trace. simpl.
  destruct (post_reply w (posts s)) as [code body | | | msg |]; simpl; try reflexivity.
  destruct (code =? 200)%nat; reflexivity.
Qed.

Lemma disciplined_poll_status (w : World) : disciplined (poll_status w).
Proof.
  intro s. unfold interrupt_law.
  assert (Hnone : after_interrupt (trace (poll_status w s)) = None).
  { apply no_interrupt_events.
    apply (always_poll_status (fun e => raises_interrupt e = false)); reflexivity. }
  pose proof (gentle_poll_status w s) as Hg.
  destruct (result (poll_status w s)) as [a | [] |]; try exact Hnone. contradiction.
Qed.

Ltac disciplined_step :=
  lazymatch goal with
  | |- disciplined (ret _) => apply disciplined_ret
  | |- disciplined (sys_exit _) => apply disciplined_sys_exit
  | |- disciplined (print _) => apply disciplined_stdout
  | |- disciplined (set_cycle_count _) => apply disciplined_set_cycle_count
  | |- disciplined get_cycle_count => apply disciplined_get_cycle_count
  | |- disciplined (time_sleep _ _) => apply disciplined_time_sleep
  | |- disciplined (poll_status _) => apply disciplined_poll_status
  | |- disciplined (send_control_command _ _ _) => apply disciplined_send
  | |- disciplined (turn_all_off _) => apply disciplined_send
  | |- disciplined (turn_on_single _ _) => apply disciplined_send
  | |- disciplined (bind _ _) => apply disciplined_bind; [| intro]
  | |- disciplined (while_true _ _) => apply disciplined_while
  | |- disciplined (if ?b then _ else _) => destruct b
  | |- disciplined (match ?x with _ => _ end) => destruct x
  end.

Lemma disciplined_test_each (w : World) (apps : list string) :
  forall i, disciplined (test_each w i apps).
Proof.
  induction apps as [| a apps IH]; intro i; simpl; repeat disciplined_step. apply IH.
Qed.

Lemma disciplined_run_test_cycle (w : World) : disciplined (run_test_cycle w).
Proof.
  unfold run_test_cycle. repeat disciplined_step. apply disciplined_test_each.
Qed.

Lemma disciplined_continuous_loop (w : World) (fuel : nat) :
  disciplined (while_true fuel (continuous_body w)).
Proof.
  unfold continuous_body, incr_cycle_count. repeat disciplined_step.
  apply disciplined_run_test_cycle.
Qed.

Lemma disciplined_single_appliance_loop (w : World) (fuel : nat) (x : string) :
  disciplined (while_true fuel (single_appliance_body w x)).
Proof.
  unfold single_appliance_body, incr_cycle_count. repeat disciplined_step.
Qed.

(** The handler posts the all-off payload, and nothing else. *)
Lemma sent_interrupted_cleanup (w : World) (s : store) :
  sent (trace (interrupted_cleanup w s)) = [all_off_payload].
Proof.
  unfold interrupted_cleanup.
  rewrite trace_bind, result_print, final_print.
  rewrite trace_bind, result_print, final_print.
  rewrite trace_bind, !sent_app.
  assert (Hoff : sent (trace (turn_all_off w s)) = [all_off_payload]).
  { unfold turn_all_off, sent. rewrite controls_send. reflexivity. }
  rewrite Hoff.
  destruct (result (turn_all_off w s)); reflexivity.
Qed.

(** An interrupt that gets out of the loop is followed by the handler's
    events: one control call, the all-off. *)
Lemma interrupt_then_cleanup (w : World) (m : M unit) (s : store) (post : list event) :
  disciplined m ->
  after_interrupt (trace (try_except_KeyboardInterrupt m (interrupted_cleanup w) s)) = Some post ->
  sent post = [all_off_payload].
Proof.
  intros Hm. rewrite trace_try, after_interrupt_app.
  specialize (Hm s). unfold interrupt_law in Hm.
  destruct (result (m s)) as [a | [] |]; rewrite Hm; simpl; try discriminate.
  intro H. inversion H. apply sent_interrupted_cleanup.
Qed.

Lemma no_interrupt_in_try (w : World) (m : M unit) (s : store) :
  disciplined m ->
  after_interrupt (trace (try_except_KeyboardInterrupt m (interrupted_cleanup w) s)) = None ->
  result (try_except_KeyboardInterrupt m (interrupted_cleanup w) s) = result (m s) /\
  trace (try_except_KeyboardInterrupt m (interrupted_cleanup w) s) = trace (m s).
Proof.
  intros Hm. rewrite trace_try, result_try, after_interrupt_app.
  specialize (Hm s). unfold interrupt_law in Hm.
  destruct (result (m s)) as [a | [] |]; rewrite Hm; try discriminate;
    intros _; rewrite app_nil_r; split; reflexivity.
Qed.

(** ** Where a failed send goes *)

Lemma holds_bind {A B} (m : M A) (k : A -> M B)
    (Q1 : outcome A -> list event -> Prop) (Q : outcome B -> list event -> Prop) :
  holds m Q1 ->
  (forall a t1, Q1 (Ret a) t1 -> holds (k a) (fun r t2 => Q r (t1 ++ t2)%list)) ->
  (forall e t1, Q1 (Raise e) t1 -> Q (Raise e) t1) ->
  (forall t1, Q1 OutOfFuel t1 -> Q OutOfFuel t1) ->
  holds (bind m k) Q.
Proof.
  intros Hm Hk He Hf s. rewrite result_bind, trace_bind. specialize (Hm s).
  destruct (result (m s)) as [a | e |].
  - apply (Hk a _ Hm).
  - rewrite app_nil_r. apply He, Hm.
  - rewrite app_nil_r. apply Hf, Hm.
Qed.

Lemma no_controls (tr : list event) :
  Forall (fun e => is_control e = false) tr -> controls tr = [].
Proof.
  induction 1 as [| e tr He _ IH]; [reflexivity |].
  destruct e as [t e | p r | r | n r]; simpl; try exact IH. discriminate.
Qed.

Lemma ok_not_failed (r : post_result) : send_ok r = true -> send_fails r = false.
Proof.
  destruct r as [code body | | | msg |]; simpl; try discriminate.
  intros ->. reflexivity.
Qed.

Lemma all_ok_none_failed (calls : list (payload * post_result)) :
  Forall (fun c => send_ok (snd c) = true) calls ->
  Forall (fun c => send_fails (snd c) = false) calls.
Proof.
  intro H. eapply Forall_impl; [| exact H]. intros c. apply ok_not_failed.
Qed.

Lemma ends_with_failure_app (c1 c2 : list (payload * post_result)) :
  Forall (fun c => send_ok (snd c) = true) c1 ->
  ends_with_failure c2 -> ends_with_failure (c1 ++ c2).
Proof.
  intros H1 [earlier [p [r [-> [Hr He]]]]].
  exists (c1 ++ earlier)%list, p, r. rewrite app_assoc.
  repeat split; [exact Hr | apply Forall_app; split; assumption].
Qed.

Lemma failure_excluded (calls : list (payload * post_result)) :
  Forall (fun c => send_fails (snd c) = false) calls ->
  ~ Exists (fun c => send_fails (snd c) = true) calls.
Proof.
  intros Hall Hex. apply Exists_exists in Hex. destruct Hex as [c [Hin Hc]].
  rewrite Forall_forall in Hall. rewrite (Hall c Hin) in Hc. discriminate.
Qed.

(** Proves that a step of the script makes no control call. *)
Ltac no_control_call :=
  lazymatch goal with
  | |- always _ (print _) => apply always_emit; reflexivity
  | |- always _ (time_sleep _ _) => apply always_time_sleep; reflexivity
  | |- always _ (poll_status _) => apply always_poll_status; reflexivity
  | |- always _ incr_cycle_count => unfold incr_cycle_count; repeat always_step
  | |- always _ get_cycle_count => apply always_get_cycle_count
  end.

Lemma passes_skip {A} (m : M A) (k : A -> M flow) (pre : list (payload * post_result)) :
  always (fun e => is_control e = false) m ->
  Forall (fun c => send_ok (snd c) = true) pre ->
  (forall a, passes pre (k a)) ->
  passes pre (bind m k).
Proof.
  intros Hm Hpre Hk s. rewrite result_bind, trace_bind, controls_app.
  rewrite (no_controls _ (Hm s)). cbn [app].
  destruct (result (m s)) as [a | e |].
  - apply Hk.
  - rewrite app_nil_r. apply all_ok_none_failed, Hpre.
  - rewrite app_nil_r. apply all_ok_none_failed, Hpre.
Qed.

Lemma passes_send (w : World) (p : payload) (d : string) (k : bool -> M flow)
    (pre : list (payload * post_result)) :
  Forall (fun c => send_ok (snd c) = true) pre ->
  (forall reply, send_ok reply = true -> passes (pre ++ [(p, reply)]) (k true)) ->
  (forall reply, send_fails reply = true -> passes (pre ++ [(p, reply)]) (k false)) ->
  passes pre (bind (send_control_command w p d) k).
Proof.
  intros Hpre Hok Hfail s.
  rewrite result_bind, trace_bind, controls_app, controls_send, result_send.
  assert (Hnone : Forall (fun c => send_fails (snd c) = false)
                         (pre ++ [(p, RaisesKeyboardInterrupt)] ++ [])).
  { apply Forall_app. split; [apply all_ok_none_failed, Hpre |].
    repeat constructor. }
  destruct (post_reply w (posts s)) as [code body | | | msg |] eqn:E;
    try exact Hnone; rewrite app_assoc;
    try (apply Hfail; reflexivity).
  cbn [send_ok]. destruct (code =? 200)%nat eqn:E200.
  - apply Hok. simpl. exact E200.
  - apply Hfail. simpl. rewrite E200. reflexivity.
Qed.

Lemma passes_ret_next (pre : list (payload * post_result)) :
  Forall (fun c => send_ok (snd c) = true) pre -> passes pre (ret Next).
Proof. intros Hpre s. simpl. rewrite app_nil_r. exact Hpre. Qed.

Lemma passes_print_break (x : string) (pre : list (payload * post_result)) :
  ends_with_failure pre -> passes pre (print x ;; ret Break).
Proof. intros Hpre s. simpl. rewrite app_nil_r. exact Hpre. Qed.

Ltac all_ok :=
  repeat (apply Forall_app; split); repeat constructor; assumption.

Ltac pass_step :=
  lazymatch goal with
  | |- passes _ (bind (send_control_command _ _ _) _) =>
      apply passes_send; [all_ok | intros ? ?; cbn [negb] | intros ? ?; cbn [negb]]
  | |- passes _ (print _ ;; ret Break) => apply passes_print_break
  | |- passes _ (ret Next) => apply passes_ret_next; all_ok
  | |- passes _ (bind _ _) => apply passes_skip; [no_control_call | all_ok | intro]
  end.

Lemma single_appliance_body_pass (w : World) (x : string) :
  holds (single_appliance_body w x) pass_law.
Proof.
  assert (H : passes [] (single_appliance_body w x)); [| exact H].
  unfold single_appliance_body. repeat pass_step.
  - match goal with
    | Hok : send_ok ?r1 = true, Hf : send_fails ?r2 = true |- _ =>
        exists [(single_on_payload x, r1)], all_off_payload, r2
    end.
    repeat split; [assumption | all_ok].
  - match goal with
    | Hf : send_fails ?r = true |- _ => exists [], (single_on_payload x), r
    end.
    repeat split; [assumption | constructor].
Qed.

Lemma loop_pass (fuel : nat) (body : M flow) :
  holds body pass_law -> holds (while_true fuel body) loop_law.
Proof.
  intro Hb. induction fuel as [| fuel IH]; simpl.
  - intro s. constructor.
  - eapply holds_bind; [exact Hb | | intros e t1 H; exact H | intros t1 H; exact H].
    intros [|] t1 H1; unfold pass_law, call_law in H1.
    + intro s. specialize (IH s). unfold loop_law in *. rewrite controls_app.
      destruct (result (while_true fuel body s)) as [[] | e |].
      * apply ends_with_failure_app; assumption.
      * apply Forall_app. split; [apply all_ok_none_failed, H1 | exact IH].
      * apply Forall_app. split; [apply all_ok_none_failed, H1 | exact IH].
    + intro s. simpl. rewrite app_nil_r. exact H1.
Qed.

(** ** Leaving the indefinite loops *)

(** Both modes start with two lines and [cycle_count = 0]. *)
Lemma mode_prelude (a b : string) (m : M unit) (s : store) :
  let s0 := {| posts := posts s; gets := gets s; sleeps := sleeps s; cycle_count := 0 |} in
  let run := (print a ;; print b ;; set_cycle_count 0 ;; m) s in
  result run = result (m s0) /\
  trace run = Stdout [Lit a] LF :: Stdout [Lit b] LF :: trace (m s0).
Proof.
  unfold bind, print, print_text, emit, set_cycle_count, result, trace. simpl.
  destruct (m _) as [[r s'] t]. destruct r; split; reflexivity.
Qed.

(** X7. In continuous mode, an interrupt raised in a wait or in a control
    call is followed by exactly one control call, the all-off of the
    handler. *)
Lemma continuous_mode_interrupt_cleanup (w : World) (fuel : nat) (s : store)
    (post : list event) :
  after_interrupt (trace (continuous_mode w fuel s)) = Some post ->
  sent post = [all_off_payload].
Proof.
  unfold continuous_mode.
  destruct (mode_prelude (LF ++ BOLD ++ YELLOW ++ "Running in CONTINUOUS mode" ++ RESET)
              (YELLOW ++ "Press Ctrl+C to stop" ++ RESET ++ LF)
              (try_except_KeyboardInterrupt (while_true fuel (continuous_body w))
                 (interrupted_cleanup w)) s) as [_ Ht].
  rewrite Ht. cbn [after_interrupt raises_interrupt].
  apply interrupt_then_cleanup, disciplined_continuous_loop.
Qed.

(** C7, as the code has it.  In toggle mode a failed send ends the mode
    and is the last control call of the run: no all-off follows it.  The
    all-off cleanup belongs to the interrupt handler alone: when the
    operator's interrupt is raised in a wait or in a control call, exactly
    one control call follows, and it is the all-off. *)
Theorem toggle_mode_exit_paths :
  forall (w : World) (fuel : nat) (appliance_name : string) (s : store),
    let run := single_appliance_mode w fuel appliance_name s in
    (after_interrupt (trace run) = None ->
     (result run = Ret tt -> ends_with_failure (controls (trace run))) /\
     (Exists (fun c => send_fails (snd c) = true) (controls (trace run)) ->
      result run = Ret tt)) /\
    (forall post, after_interrupt (trace run) = Some post -> sent post = [all_off_payload]).
Proof.
  intros w fuel x s run. subst run. unfold single_appliance_mode.
  destruct (mode_prelude
              (LF ++ BOLD ++ YELLOW ++ "Running SINGLE APPLIANCE mode: " ++ x ++ RESET)
              (YELLOW ++ "Press Ctrl+C to stop" ++ RESET ++ LF)
              (try_except_KeyboardInterrupt (while_true fuel (single_appliance_body w x))
                 (interrupted_cleanup w)) s) as [Hr Ht].
  rewrite Hr, Ht. cbn [after_interrupt raises_interrupt controls]. clear Hr Ht.
  set (s0 := {| posts := posts s; gets := gets s; sleeps := sleeps s; cycle_count := 0 |}).
  pose proof (disciplined_single_appliance_loop w fuel x) as Hd.
  split.
  - intro Hnone. destruct (no_interrupt_in_try w _ s0 Hd Hnone) as [Hr Ht].
    rewrite Hr, Ht.
    pose proof (loop_pass fuel _ (single_appliance_body_pass w x) s0) as Hl.
    unfold loop_law in Hl.
    destruct (result (while_true fuel (single_appliance_body w x) s0)) as [[] | e |].
    + split; [intros _; exact Hl | reflexivity].
    + split; [discriminate | intro Hex; exfalso; exact (failure_excluded _ Hl Hex)].
    + split; [discriminate | intro Hex; exfalso; exact (failure_excluded _ Hl Hex)].
  - intros post. apply interrupt_then_cleanup, Hd.
Qed.

Lemma toggle_mode_exit_paths_witness :
  after_interrupt (trace (single_appliance_mode unreachable 3 "Filter" init)) = None /\
  result (single_appliance_mode unreachable 3 "Filter" init) = Ret tt /\
  ends_with_failure (controls (trace (single_appliance_mode unreachable 3 "Filter" init))) /\
  after_interrupt (trace (single_appliance_mode (interrupt_in_sleep 1) 3 "Filter" init))
    <> None /\
  (forall post,
      after_interrupt (trace (single_appliance_mode (interrupt_in_sleep 1) 3 "Filter" init))
        = Some post ->
      sent post = [all_off_payload]).
Proof.
  assert (H1 : after_interrupt (trace (single_appliance_mode unreachable 3 "Filter" init))
               = None) by (vm_compute; reflexivity).
  assert (H2 : result (single_appliance_mode unreachable 3 "Filter" init) = Ret tt)
    by (vm_compute; reflexivity).
  split; [exact H1 | split; [exact H2 | split]].
  - exact (proj1 (proj1 (toggle_mode_exit_paths unreachable 3 "Filter" init) H1) H2).
  - split; [vm_compute; discriminate |].
    exact (proj2 (toggle_mode_exit_paths (interrupt_in_sleep 1) 3 "Filter" init)).
Defined.

(** C7, as the claim has it, fails: with a device that cannot be reached
    the first send of toggle mode fails, the mode returns, and the only
    command ever posted is the single-on one; no all-off was attempted. *)
Lemma toggle_failed_send_no_cleanup :
  result (single_appliance_mode unreachable 3 "Filter" init) = Ret tt /\
  sent (trace (single_appliance_mode unreachable 3 "Filter" init))
    = [single_on_payload "Filter"] /\
  ~ In all_off_payload (sent (trace (single_appliance_mode unreachable 3 "Filter" init))).
Proof.
  assert (Hs : sent (trace (single_appliance_mode unreachable 3 "Filter" init))
               = [single_on_payload "Filter"]) by (vm_compute; reflexivity).
  split; [vm_compute; reflexivity | split; [exact Hs |]].
  rewrite Hs. intros [H | []]. vm_compute in H. discriminate H.
Qed.

(** C9 at the failing input.  Continuous mode against the healthy device,
    Ctrl+C arriving while the first status request of the first cycle is in
    flight: [get_status] swallows the interrupt, the handler never runs,
    the first cycle goes on with its seven remaining commands and a second
    cycle follows with its eight; after two cycles the loop is still
    running. *)
Theorem continuous_interrupt_in_poll_unnoticed :
  let run := continuous_mode interrupt_in_first_poll 2 init in
  result run = OutOfFuel /\
  cycle_count (final run) = 2 /\
  hd_error (polls (trace run)) = Some GetRaisesKeyboardInterrupt /\
  after_interrupt (trace run) = None /\
  option_map (fun post => length (controls post)) (after_interrupted_poll (trace run))
    = Some 15.
Proof. vm_compute. repeat split. Qed.

(** The same interrupt arriving during a wait of the first cycle reaches
    the handler: one all-off, and the mode returns after one cycle. *)
Lemma continuous_interrupt_in_sleep_cleans_up :
  let run := continuous_mode (interrupt_in_sleep 4) 2 init in
  result run = Ret tt /\
  cycle_count (final run) = 1 /\
  option_map sent (after_interrupt (trace run)) = Some [all_off_payload].
Proof. vm_compute. repeat split. Qed.

(** * Further properties of the script *)

(** ** Reading the status *)

Lemma final_get_status (w : World) (s : store) :
  final (get_status w s)
  = {| posts := posts s; gets := S (gets s); sleeps := sleeps s;
       cycle_count := cycle_count s |}.
Proof.
  unfold get_status, bind, requests_get, final. simpl.
  destruct (get_reply w (gets s)) as [code [data |] | |]; simpl; try reflexivity;
    destruct (code =? 200)%nat; reflexivity.
Qed.

(** X1. [get_status] never raises, whatever the request does -- a network
    error, a body that does not parse, the operator's interrupt: it makes
    one status request and returns.  What it returns is [None] unless the
    reply had status 200 and a body that parsed, in which case it is that
    body. *)
Theorem get_status_always_returns :
  forall (w : World) (s : store),
    exists v,
      result (get_status w s) = Ret v /\
      trace (get_status w s) = [Status (get_reply w (gets s))] /\
      gets (final (get_status w s)) = S (gets s) /\
      posts (final (get_status w s)) = posts s /\
      (v <> JNull ->
       get_reply w (gets s) = StatusResponse 200 (Some v)) /\
      (forall data, get_reply w (gets s) = StatusResponse 200 (Some data) -> v = data).
Proof.
  intros w s. rewrite result_get_status, trace_get_status, final_get_status.
  eexists. split; [reflexivity |]. split; [reflexivity |].
  split; [reflexivity |]. split; [reflexivity |].
  destruct (get_reply w (gets s)) as [code [data |] | |]; split;
    try (intro H; contradiction H; reflexivity); try discriminate;
    try (intros data' H; inversion H; subst; reflexivity).
  destruct (code =? 200)%nat eqn:E; [| intro H; contradiction H; reflexivity].
  apply Nat.eqb_eq in E. subst. reflexivity.
Qed.

(** X2. [display_status] shows nothing and raises nothing when there is
    nothing to show: on a value that counts as false ([None], an empty
    object, ...) and on an object without an ["appliances"] member, even
    when it carries a temperature. *)
Theorem display_status_nothing_to_show :
  forall (v : value) (s : store),
    truthy v = false \/
    (exists members, v = JObj members /\ lookup "appliances" members = None) ->
    display_status v s = (Ret tt, s, []).
Proof.
  intros v s [Hfalse | [members [-> Hnone]]]; unfold display_status.
  - rewrite Hfalse. reflexivity.
  - destruct (truthy (JObj members)); [| reflexivity].
    cbn [negb py_in]. rewrite Hnone. reflexivity.
Qed.

Lemma display_status_nothing_to_show_witness :
  (truthy (JObj [("temperature_celsius", JFloat minus_127_0)]) = false \/
   exists members,
     JObj [("temperature_celsius", JFloat minus_127_0)] = JObj members /\
     lookup "appliances" members = None) /\
  display_status (JObj [("temperature_celsius", JFloat minus_127_0)]) init = (Ret tt, init, []).
Proof.
  assert (H : truthy (JObj [("temperature_celsius", JFloat minus_127_0)]) = false \/
              exists members,
                JObj [("temperature_celsius", JFloat minus_127_0)] = JObj members /\
                lookup "appliances" members = None).
  { right. eexists. split; reflexivity. }
  split; [exact H | exact (display_status_nothing_to_show _ init H)].
Defined.

(** ** Showing the status *)









(** ** The single cycle when things go wrong *)

Lemma waits_app (t1 t2 : list event) : waits (t1 ++ t2) = (waits t1 ++ waits t2)%list.
Proof.
  induction t1 as [| [t e | p r | r | n r] t1 IH]; simpl; rewrite ?IH; reflexivity.
Qed.

Lemma no_waits (tr : list event) :
  Forall (fun e => is_sleep e = false) tr -> waits tr = [].
Proof.
  induction 1 as [| e tr He _ IH]; [reflexivity |].
  destruct e as [t e | p r | r | n r]; simpl; try exact IH. discriminate.
Qed.

Lemma waits_send (w : World) (p : payload) (d : string) (s : store) :
  waits (trace (send_control_command w p d s)) = [].
Proof.
  apply no_waits. apply (always_send (fun e => is_sleep e = false)); reflexivity.
Qed.

Lemma waits_poll_status (w : World) (s : store) : waits (trace (poll_status w s)) = [].
Proof.
  apply no_waits. apply (always_poll_status (fun e => is_sleep e = false)); reflexivity.
Qed.

Lemma polls_send (w : World) (p : payload) (d : string) (s : store) :
  polls (trace (send_control_command w p d s)) = [].
Proof.
  pose proof (summary_send w p d s) as Hs. unfold summary in Hs.
  apply (f_equal (fun x => snd (fst x))) in Hs. cbn [fst snd] in Hs.
  apply length_zero_iff_nil. exact Hs.
Qed.

Lemma controls_poll_status (w : World) (s : store) :
  controls (trace (poll_status w s)) = [].
Proof.
  pose proof (summary_poll_status w s) as Hs. unfold summary in Hs.
  apply (f_equal (fun x => fst (fst x))) in Hs. exact Hs.
Qed.


Lemma final_send (w : World) (p : payload) (d : string) (s : store) :
  final (send_control_command w p d s)
  = {| posts := S (posts s); gets := gets s; sleeps := sleeps s;
       cycle_count := cycle_count s |}.
Proof.
  unfold send_control_command, bind, datetime_now_strftime, print_end, emit,
    requests_post, final. simpl.
  destruct (post_reply w (posts s)) as [code body | | | msg |]; simpl; try reflexivity.
  destruct (code =? 200)%nat; reflexivity.
Qed.





(** [main] without arguments, read through the cycle it runs. *)
Lemma main_single_cycle_wrapper (w : World) (fuel : nat) (prog : string) (s : store) :
  result (main w fuel [prog] s)
  = match result (run_test_cycle w s) with
    | Ret true => Ret tt
    | Ret false => Raise (SystemExit 1)
    | Raise e => Raise e
    | OutOfFuel => OutOfFuel
    end /\
  controls (trace (main w fuel [prog] s)) = controls (trace (run_test_cycle w s)) /\
  polls (trace (main w fuel [prog] s)) = polls (trace (run_test_cycle w s)) /\
  waits (trace (main w fuel [prog] s)) = waits (trace (run_test_cycle w s)).
Proof.
  unfold main. cbn [length Nat.ltb Nat.leb andb].
  unfold print_header, bind, print, print_text, emit, sys_exit, raise, ret, result, trace.
  cbn [fst snd].
  destruct (run_test_cycle w s) as [[[[|] | e |] s'] t]; cbn [fst snd app];
    repeat (progress (rewrite ?controls_app, ?polls_app, ?waits_app;
                      cbn [controls polls waits app]));
    rewrite ?app_nil_r; repeat split; reflexivity.
Qed.

(** The cycle whose first all-off fails. *)
Lemma run_test_cycle_failed (w : World) (s : store) :
  send_fails (post_reply w (posts s)) = true ->
  result (run_test_cycle w s) = Ret false /\
  controls (trace (run_test_cycle w s)) = [(all_off_payload, post_reply w (posts s))] /\
  polls (trace (run_test_cycle w s)) = [] /\
  waits (trace (run_test_cycle w s)) = [].
Proof.
  intro Hfail. split; [apply run_test_cycle_false_iff, Hfail |].
  unfold run_test_cycle.
  rewrite trace_bind, result_print, final_print, trace_bind, result_turn_all_off.
  assert (Hreply : match post_reply w (posts s) with
                   | RaisesKeyboardInterrupt => Raise KeyboardInterrupt
                   | r => Ret (send_ok r)
                   end = Ret false).
  { destruct (post_reply w (posts s)) as [code body | | | msg |]; try reflexivity;
      try discriminate.
    simpl in *. destruct (code =? 200)%nat; [discriminate | reflexivity]. }
  rewrite Hreply. cbn [negb].
  rewrite !controls_app, !polls_app, !waits_app.
  unfold turn_all_off. rewrite controls_send, waits_send, polls_send.
  repeat split; reflexivity.
Qed.

(** X5. A single cycle whose first all-off fails stops there: [main]
    without arguments posts that one command, polls nothing, waits for
    nothing and ends by [sys.exit(1)]. *)
Theorem single_cycle_fails_fast :
  forall (w : World) (fuel : nat) (prog : string),
    send_fails (post_reply w 0) = true ->
    let run := main w fuel [prog] init in
    result run = Raise (SystemExit 1) /\
    exit_code (result run) = Some 1 /\
    controls (trace run) = [(all_off_payload, post_reply w 0)] /\
    polls (trace run) = [] /\
    waits (trace run) = [].
Proof.
  intros w fuel prog Hfail run. subst run.
  destruct (main_single_cycle_wrapper w fuel prog init) as [Hr [Hc [Hp Hw]]].
  destruct (run_test_cycle_failed w init Hfail) as [Hr' [Hc' [Hp' Hw']]].
  rewrite Hr, Hc, Hp, Hw, Hr', Hc', Hp', Hw'. repeat split.
Qed.

Lemma single_cycle_fails_fast_witness :
  send_fails (post_reply unreachable 0) = true /\
  result (main unreachable 1 ["relay_switcher.py"] init) = Raise (SystemExit 1) /\
  controls (trace (main unreachable 1 ["relay_switcher.py"] init))
    = [(all_off_payload, RaisesConnectionError)].
Proof.
  assert (H : send_fails (post_reply unreachable 0) = true) by reflexivity.
  destruct (single_cycle_fails_fast unreachable 1 "relay_switcher.py" H) as [Hr [_ [Hc _]]].
  split; [exact H | split; [exact Hr | exact Hc]].
Defined.





(** ** Leaving continuous mode *)

Lemma continuous_mode_interrupt_cleanup_witness :
  exists post,
    after_interrupt (trace (continuous_mode (interrupt_in_sleep 4) 2 init)) = Some post /\
    sent post = [all_off_payload].
Proof.
  destruct (after_interrupt (trace (continuous_mode (interrupt_in_sleep 4) 2 init)))
    as [post |] eqn:E.
  - exists post. split; [reflexivity |].
    exact (continuous_mode_interrupt_cleanup (interrupt_in_sleep 4) 2 init post E).
  - vm_compute in E. discriminate E.
Defined.










(** ** Commands and waits, in order *)

Lemma timeline_app (t1 t2 : list event) :
  timeline (t1 ++ t2) = add_timeline (timeline t1) (timeline t2).
Proof. unfold timeline, add_timeline. rewrite controls_app, waits_app. reflexivity. Qed.

Lemma returns_print_tl (x : string) :
  returns (print x) (fun _ t => timeline t = ([], [])).
Proof. intro s. exists tt. split; reflexivity. Qed.

Lemma returns_incr_cycle_count_tl :
  returns incr_cycle_count (fun _ t => timeline t = ([], [])).
Proof. intro s. exists tt. split; reflexivity. Qed.

Lemma returns_get_cycle_count_tl :
  returns get_cycle_count (fun _ t => timeline t = ([], [])).
Proof. intro s. exists (cycle_count s). split; reflexivity. Qed.

(** Brings the timeline of a trace put together from described parts to
    the sum of their timelines. *)
Ltac timelines :=
  cbv beta in *;
  rewrite ?timeline_app;
  repeat match goal with
         | H : timeline _ = _ |- _ => rewrite H; clear H
         end;
  cbn [add_timeline app].

Section UndisturbedTimeline.

Variable w : World.
Hypothesis Hw : undisturbed w.

Lemma returns_time_sleep_tl (k : nat) :
  returns (time_sleep w k) (fun _ t => timeline t = ([], [k])).
Proof.
  intro s. exists tt. unfold time_sleep, result, trace. simpl.
  rewrite (sleeps_elapse w Hw). split; reflexivity.
Qed.

Lemma returns_poll_status_tl :
  returns (poll_status w) (fun _ t => timeline t = ([], [])).
Proof.
  intro s. exists tt. split.
  - apply result_poll_status, (statuses_display w Hw).
  - unfold timeline. rewrite controls_poll_status, waits_poll_status. reflexivity.
Qed.

Lemma returns_send_tl (p : payload) (d : string) :
  returns (send_control_command w p d)
          (fun ok t => exists n, ok = send_ok (post_reply w n) /\
                                 timeline t = ([(p, post_reply w n)], [])).
Proof.
  intro s. exists (send_ok (post_reply w (posts s))). rewrite result_send.
  pose proof (posts_return w Hw (posts s)) as Hni.
  split.
  - destruct (post_reply w (posts s)); try reflexivity. contradiction Hni. reflexivity.
  - exists (posts s). split; [reflexivity |].
    unfold timeline. rewrite controls_send, waits_send. reflexivity.
Qed.

Lemma test_each_timeline (apps : list string) :
  forall i,
    returns (test_each w i apps)
            (fun _ t => map fst (controls t) = map single_on_payload apps /\
                        waits t = flat_map waits_after (controls t) /\
                        Forall (fun c => exists n, snd c = post_reply w n) (controls t)).
Proof.
  induction apps as [| a apps IH]; intro i; cbn [test_each].
  - apply returns_ret. repeat split. constructor.
  - eapply returns_bind; [apply returns_print_tl |]. intros ? t1 H1.
    eapply returns_bind; [apply returns_send_tl |]. intros ok t2 [n [Hok H2]]. subst ok.
    eapply returns_bind with
      (Q1 := fun _ t => timeline t = ([], waits_after (single_on_payload a, post_reply w n))).
    + unfold waits_after. cbn [snd]. destruct (send_ok (post_reply w n)); cbn [negb].
      * eapply returns_bind; [apply returns_time_sleep_tl |]. intros ? t3 H3.
        eapply returns_bind; [apply returns_poll_status_tl |]. intros ? t4 H4.
        eapply returns_bind; [apply returns_print_tl |]. intros ? t5 H5.
        eapply returns_weaken; [apply returns_time_sleep_tl |].
        cbv beta. intros ? t6 H6. timelines. reflexivity.
      * eapply returns_bind; [apply returns_print_tl |]. intros ? t3 H3.
        eapply returns_weaken; [apply returns_time_sleep_tl |].
        cbv beta. intros ? t4 H4. timelines. reflexivity.
    + intros ? t3 H3. eapply returns_weaken; [apply IH |].
      cbv beta. intros ? t4 [Hc [Hwt Hall]]. cbv beta in *.
      assert (Htl : timeline (t1 ++ t2 ++ t3 ++ t4)
                    = ((single_on_payload a, post_reply w n) :: controls t4,
                       (waits_after (single_on_payload a, post_reply w n) ++ waits t4)%list)).
      { rewrite !timeline_app, H1, H2, H3. reflexivity. }
      unfold timeline in Htl. inversion Htl as [[Hc' Hw']].
      rewrite Hc', Hw'. cbn [map fst flat_map]. rewrite Hc, Hwt.
      repeat split. constructor; [exists n; reflexivity | exact Hall].
Qed.

(** The commands and the waits of the part of [run_test_cycle] that comes
    after a first all-off that succeeded. *)
Lemma rest_of_cycle_timeline :
  returns (time_sleep w 1 ;;
           poll_status w ;;
           time_sleep w 2 ;;
           test_each w 1 APPLIANCES ;;
           print (LF ++ BOLD ++ "Finishing test cycle..." ++ RESET ++ LF) ;;
           turn_all_off w ;;
           time_sleep w 1 ;;
           poll_status w ;;
           ret true)
          (fun ok t =>
             ok = true /\
             exists mid last,
               map fst mid = map single_on_payload APPLIANCES /\
               Forall (fun c => exists n, snd c = post_reply w n) mid /\
               timeline t = ((mid ++ [(all_off_payload, last)])%list,
                             (1 :: 2 :: flat_map waits_after mid ++ [1])%list)).
Proof.
  eapply returns_bind; [apply returns_time_sleep_tl |]. intros ? t1 H1.
  eapply returns_bind; [apply returns_poll_status_tl |]. intros ? t2 H2.
  eapply returns_bind; [apply returns_time_sleep_tl |]. intros ? t3 H3.
  eapply returns_bind; [apply test_each_timeline |]. intros ? t4 [Hc4 [Hw4 Hall4]].
  eapply returns_bind; [apply returns_print_tl |]. intros ? t5 H5.
  eapply returns_bind; [apply returns_send_tl |]. intros ok t6 [n [_ H6]].
  eapply returns_bind; [apply returns_time_sleep_tl |]. intros ? t7 H7.
  eapply returns_bind; [apply returns_poll_status_tl |]. intros ? t8 H8.
  apply returns_ret. split; [reflexivity |]. cbv beta in *.
  exists (controls t4), (post_reply w n).
  split; [exact Hc4 | split; [exact Hall4 |]].
  rewrite !timeline_app, H1, H2, H3, H5, H6, H7, H8.
  unfold timeline at 1. rewrite Hw4. cbn [add_timeline app timeline controls waits].
  rewrite ?app_nil_r. reflexivity.
Qed.

Lemma run_test_cycle_timeline (s : store) :
  send_ok (post_reply w (posts s)) = true ->
  result (run_test_cycle w s) = Ret true /\
  exists mid last,
    map fst mid = map single_on_payload APPLIANCES /\
    Forall (fun c => exists n, snd c = post_reply w n) mid /\
    timeline (trace (run_test_cycle w s))
    = (((all_off_payload, post_reply w (posts s)) :: mid ++ [(all_off_payload, last)])%list,
       (1 :: 2 :: flat_map waits_after mid ++ [1])%list).
Proof.
  intro Hok. unfold run_test_cycle.
  rewrite result_bind, trace_bind, result_print, final_print, result_bind, trace_bind.
  rewrite result_turn_all_off.
  assert (Hreply : match post_reply w (posts s) with
                   | RaisesKeyboardInterrupt => Raise KeyboardInterrupt
                   | r => Ret (send_ok r)
                   end = Ret true).
  { rewrite <- Hok. destruct (post_reply w (posts s)); try reflexivity. discriminate. }
  rewrite Hreply. cbn [negb].
  destruct (rest_of_cycle_timeline (final (turn_all_off w s)))
    as [ok [Hr [-> [mid [last [Hmid [Hall Htl]]]]]]].
  split; [exact Hr |]. exists mid, last.
  split; [exact Hmid | split; [exact Hall |]].
  rewrite !timeline_app, Htl.
  assert (H1 : timeline (trace (print (LF ++ BOLD ++ "Starting test cycle..." ++ RESET ++ LF) s))
               = ([], [])) by reflexivity.
  assert (H2 : timeline (trace (turn_all_off w s))
               = ([(all_off_payload, post_reply w (posts s))], [])).
  { unfold timeline, turn_all_off. rewrite controls_send, waits_send. reflexivity. }
  rewrite H1, H2. reflexivity.
Qed.

End UndisturbedTimeline.

(** X9. The timing of a test cycle.  In a cycle that got past its first
    all-off (no operator interrupt, statuses displayable) the script waits
    one second and two seconds after the all-off, then around each
    single-on command one second and the switch interval of five seconds
    when the command went through, one second only when it failed, and one
    second after the final all-off. *)
Theorem run_test_cycle_waits :
  forall (w : World) (s : store),
    undisturbed w ->
    send_ok (post_reply w (posts s)) = true ->
    exists first mid last,
      controls (trace (run_test_cycle w s))
        = ((all_off_payload, first) :: mid ++ [(all_off_payload, last)])%list /\
      map fst mid = map single_on_payload APPLIANCES /\
      waits (trace (run_test_cycle w s))
        = (1 :: 2 :: flat_map waits_after mid ++ [1])%list.
Proof.
  intros w s Hw Hok.
  destruct (run_test_cycle_timeline w Hw s Hok) as [_ [mid [last [Hmid [_ Htl]]]]].
  unfold timeline in Htl. inversion Htl as [[Hc Hwt]].
  exists (post_reply w (posts s)), mid, last. repeat split; assumption.
Qed.

Lemma run_test_cycle_waits_witness :
  undisturbed healthy /\
  send_ok (post_reply healthy (posts init)) = true /\
  exists first mid last,
    controls (trace (run_test_cycle healthy init))
      = ((all_off_payload, first) :: mid ++ [(all_off_payload, last)])%list /\
    map fst mid = map single_on_payload APPLIANCES /\
    waits (trace (run_test_cycle healthy init))
      = (1 :: 2 :: flat_map waits_after mid ++ [1])%list.
Proof.
  assert (H : send_ok (post_reply healthy (posts init)) = true) by reflexivity.
  split; [exact healthy_undisturbed | split; [exact H |]].
  exact (run_test_cycle_waits healthy init healthy_undisturbed H).
Defined.

(** ** The indefinite loops against a healthy device *)

Lemma waits_after_all_ok (mid : list (payload * post_result)) :
  forall apps : list string,
    Forall (fun c => send_ok (snd c) = true) mid ->
    map fst mid = map single_on_payload apps ->
    flat_map waits_after mid = flat_map (fun _ : string => [1; SWITCH_INTERVAL]) apps.
Proof.
  induction mid as [| c mid IH]; intros [| a apps] Hall Hmap; try discriminate.
  - reflexivity.
  - inversion Hall as [| ? ? Hc Hrest]; subst. inversion Hmap as [[Hhd Hmap']].
    cbn [flat_map]. unfold waits_after at 1. rewrite Hc.
    rewrite (IH apps Hrest Hmap'). reflexivity.
Qed.

(** A loop whose body always comes back for another pass. *)
Lemma while_runs_on (body : M flow) (c : list payload) (ws : list nat) :
  returns body (fun f t => f = Next /\ sent t = c /\ waits t = ws) ->
  forall fuel s,
    result (while_true fuel body s) = OutOfFuel /\
    sent (trace (while_true fuel body s)) = concat (repeat c fuel) /\
    waits (trace (while_true fuel body s)) = concat (repeat ws fuel).
Proof.
  intros Hb fuel. induction fuel as [| fuel IH]; intro s.
  - repeat split.
  - cbn [while_true repeat concat]. rewrite result_bind, trace_bind, sent_app, waits_app.
    destruct (Hb s) as [f [Hr [-> [Hc Hws]]]]. rewrite Hr, Hc, Hws.
    destruct (IH (final (body s))) as [Hr' [Hc' Hws']].
    rewrite Hr', Hc', Hws'. repeat split.
Qed.

Lemma mode_runs_on (w : World) (a b : string) (body : M flow) (c : list payload)
    (ws : list nat) (fuel : nat) (s : store) :
  returns body (fun f t => f = Next /\ sent t = c /\ waits t = ws) ->
  let run := (print a ;; print b ;; set_cycle_count 0 ;;
              try_except_KeyboardInterrupt (while_true fuel body) (interrupted_cleanup w)) s in
  result run = OutOfFuel /\
  sent (trace run) = concat (repeat c fuel) /\
  waits (trace run) = concat (repeat ws fuel).
Proof.
  intros Hb run. subst run.
  destruct (mode_prelude a b
              (try_except_KeyboardInterrupt (while_true fuel body) (interrupted_cleanup w)) s)
    as [Hr Ht].
  rewrite Hr, Ht. unfold sent. cbn [controls waits]. fold (sent).
  rewrite result_try, trace_try.
  destruct (while_runs_on body c ws Hb fuel
              {| posts := posts s; gets := gets s; sleeps := sleeps s; cycle_count := 0 |})
    as [Hr' [Hc' Hws']].
  rewrite Hr', app_nil_r. repeat split; assumption.
Qed.

Section HealthyLoops.

Variable w : World.
Hypothesis Hw : undisturbed w.
Hypothesis H200 : answers_200 w.

Lemma returns_run_test_cycle_tl :
  returns (run_test_cycle w)
          (fun ok t => ok = true /\ timeline t = (controls t, cycle_waits) /\
                       sent t = cycle_payloads).
Proof.
  intro s. exists true.
  destruct (run_test_cycle_timeline w Hw s (every_send_ok w H200 (posts s)))
    as [Hr [mid [last [Hmid [Hall Htl]]]]].
  split; [exact Hr | split; [reflexivity |]].
  assert (Hok : Forall (fun c => send_ok (snd c) = true) mid).
  { eapply Forall_impl; [| exact Hall]. intros c [n ->]. apply (every_send_ok w H200). }
  unfold timeline in *. inversion Htl as [[Hc Hwt]].
  unfold sent. rewrite Hc, Hwt.
  rewrite (waits_after_all_ok mid APPLIANCES Hok Hmid).
  split; [reflexivity |].
  cbn [map fst]. rewrite map_app, Hmid. reflexivity.
Qed.

Lemma continuous_body_runs_on :
  returns (continuous_body w)
          (fun f t => f = Next /\ sent t = cycle_payloads /\
                      waits t = (cycle_waits ++ [5])%list).
Proof.
  unfold continuous_body.
  eapply returns_bind; [apply returns_incr_cycle_count_tl |]. intros ? t1 H1.
  eapply returns_bind; [apply returns_get_cycle_count_tl |]. intros n t2 H2.
  eapply returns_bind; [apply returns_print_tl |]. intros ? t3 H3.
  eapply returns_bind; [apply returns_print_tl |]. intros ? t4 H4.
  eapply returns_bind; [apply returns_print_tl |]. intros ? t5 H5.
  eapply returns_bind; [apply returns_run_test_cycle_tl |].
  intros ok t6 [-> [H6 Hs6]]. cbn [negb].
  eapply returns_bind; [apply returns_print_tl |]. intros ? t7 H7.
  eapply returns_bind; [apply returns_print_tl |]. intros ? t8 H8.
  eapply returns_bind; [apply (returns_time_sleep_tl w Hw) |]. intros ? t9 H9.
  apply returns_ret. split; [reflexivity |]. cbv beta in *.
  assert (Htl : timeline (t1 ++ t2 ++ t3 ++ t4 ++ t5 ++ t6 ++ t7 ++ t8 ++ t9 ++ [])
                = (controls t6, (cycle_waits ++ [5])%list)).
  { rewrite !timeline_app, H1, H2, H3, H4, H5, H6, H7, H8, H9.
    cbn [add_timeline app timeline controls waits]. rewrite ?app_nil_r. reflexivity. }
  unfold timeline in Htl. inversion Htl as [[Hc Hwt]].
  unfold sent in *. rewrite Hc, Hwt. split; [exact Hs6 | reflexivity].
Qed.

Lemma single_appliance_body_runs_on (x : string) :
  returns (single_appliance_body w x)
          (fun f t => f = Next /\ sent t = round_payloads x /\ waits t = round_waits).
Proof.
  unfold single_appliance_body.
  eapply returns_bind; [apply returns_incr_cycle_count_tl |]. intros ? t1 H1.
  eapply returns_bind; [apply returns_get_cycle_count_tl |]. intros n t2 H2.
  eapply returns_bind; [apply returns_print_tl |]. intros ? t3 H3.
  eapply returns_bind; [apply returns_print_tl |]. intros ? t4 H4.
  eapply returns_bind; [apply returns_print_tl |]. intros ? t5 H5.
  eapply returns_bind; [apply returns_print_tl |]. intros ? t6 H6.
  eapply returns_bind; [apply (returns_send_tl w Hw) |]. intros ok t7 [n7 [-> H7]].
  rewrite (every_send_ok w H200). cbn [negb].
  eapply returns_bind; [apply (returns_time_sleep_tl w Hw) |]. intros ? t8 H8.
  eapply returns_bind; [apply (returns_poll_status_tl w Hw) |]. intros ? t9 H9.
  eapply returns_bind; [apply returns_print_tl |]. intros ? t10 H10.
  eapply returns_bind; [apply (returns_time_sleep_tl w Hw) |]. intros ? t11 H11.
  eapply returns_bind; [apply returns_print_tl |]. intros ? t12 H12.
  eapply returns_bind; [apply (returns_send_tl w Hw) |]. intros ok t13 [n13 [-> H13]].
  rewrite (every_send_ok w H200). cbn [negb].
  eapply returns_bind; [apply (returns_time_sleep_tl w Hw) |]. intros ? t14 H14.
  eapply returns_bind; [apply (returns_poll_status_tl w Hw) |]. intros ? t15 H15.
  eapply returns_bind; [apply returns_print_tl |]. intros ? t16 H16.
  eapply returns_bind; [apply returns_print_tl |]. intros ? t17 H17.
  eapply returns_bind; [apply (returns_time_sleep_tl w Hw) |]. intros ? t18 H18.
  apply returns_ret. split; [reflexivity |]. cbv beta in *.
  assert (Htl : timeline (t1 ++ t2 ++ t3 ++ t4 ++ t5 ++ t6 ++ t7 ++ t8 ++ t9 ++ t10 ++ t11
                             ++ t12 ++ t13 ++ t14 ++ t15 ++ t16 ++ t17 ++ t18 ++ [])
                = ([(single_on_payload x, post_reply w n7);
                    (all_off_payload, post_reply w n13)], round_waits)).
  { rewrite !timeline_app, H1, H2, H3, H4, H5, H6, H7, H8, H9, H10, H11, H12, H13,
      H14, H15, H16, H17, H18. reflexivity. }
  unfold timeline in Htl. inversion Htl as [[Hc Hwt]].
  unfold sent. rewrite Hc, Hwt. split; reflexivity.
Qed.

End HealthyLoops.

(** X10. Continuous mode has no end of its own: against a device that
    answers 200 throughout with statuses that [display_status] can show,
    the operator keeping away, every bound put on its loop is used up, and
    cycle after cycle it posts the same commands -- all-off, one single-on
    per appliance in order, all-off -- with the waits of a cycle and the
    five seconds between cycles. *)
Theorem continuous_mode_runs_on :
  forall (w : World) (fuel : nat) (s : store),
    answers_200 w ->
    undisturbed w ->
    let run := continuous_mode w fuel s in
    result run = OutOfFuel /\
    sent (trace run) = concat (repeat cycle_payloads fuel) /\
    waits (trace run) = concat (repeat (cycle_waits ++ [5])%list fuel).
Proof.
  intros w fuel s H200 Hw. unfold continuous_mode.
  apply (mode_runs_on w), continuous_body_runs_on; assumption.
Qed.

Lemma continuous_mode_runs_on_witness :
  answers_200 healthy /\
  undisturbed healthy /\
  result (continuous_mode healthy 3 init) = OutOfFuel /\
  sent (trace (continuous_mode healthy 3 init)) = concat (repeat cycle_payloads 3).
Proof.
  destruct (continuous_mode_runs_on healthy 3 init healthy_answers_200 healthy_undisturbed)
    as [Hr [Hs _]].
  split; [exact healthy_answers_200 | split; [exact healthy_undisturbed |]].
  split; [exact Hr | exact Hs].
Defined.

(** X11. Toggle mode under the same conditions -- a device that answers
    200 throughout with statuses that [display_status] can show, the
    operator keeping away: round after round it posts the single-on payload
    of its appliance and then the all-off payload, holding the appliance on
    for the settle second and the switch interval and off for one second
    and three, and it too has no end of its own. *)
Theorem single_appliance_mode_runs_on :
  forall (w : World) (fuel : nat) (appliance_name : string) (s : store),
    answers_200 w ->
    undisturbed w ->
    let run := single_appliance_mode w fuel appliance_name s in
    result run = OutOfFuel /\
    sent (trace run) = concat (repeat (round_payloads appliance_name) fuel) /\
    waits (trace run) = concat (repeat round_waits fuel).
Proof.
  intros w fuel x s H200 Hw. unfold single_appliance_mode.
  apply (mode_runs_on w), single_appliance_body_runs_on; assumption.
Qed.

Lemma single_appliance_mode_runs_on_witness :
  answers_200 healthy /\
  undisturbed healthy /\
  result (single_appliance_mode healthy 3 "Heater" init) = OutOfFuel /\
  sent (trace (single_appliance_mode healthy 3 "Heater" init))
    = concat (repeat (round_payloads "Heater") 3).
Proof.
  destruct (single_appliance_mode_runs_on healthy 3 "Heater" init
              healthy_answers_200 healthy_undisturbed) as [Hr [Hs _]].
  split; [exact healthy_answers_200 | split; [exact healthy_undisturbed |]].
  split; [exact Hr | exact Hs].
Defined.

(** ** Choosing the mode, again *)

(** X12. How [main] reads its arguments beyond the cases of a named
    appliance: [-c] or [--continuous] in first place selects continuous
    mode whatever follows; [-a] or [--appliance] with no name after it is
    not an error but runs the single test cycle; and any other first
    argument is ignored the same way. *)
Theorem main_mode_selection :
  forall (w : World) (fuel : nat) (prog flag : string) (rest : list string),
    (In flag ["-c"; "--continuous"] ->
     main w fuel (prog :: flag :: rest) = (print_header ;; continuous_mode w fuel)) /\
    (In flag ["-a"; "--appliance"] ->
     main w fuel [prog; flag] = main w fuel [prog]) /\
    (~ In flag ["-a"; "--appliance"; "-c"; "--continuous"] ->
     main w fuel (prog :: flag :: rest) = main w fuel [prog]).
Proof.
  intros w fuel prog flag rest. split; [| split].
  - intro H. simpl in H. unfold main. cbn [nth].
    destruct H as [<- | [<- | []]].
    + change (in_list "-c" ["-a"; "--appliance"]) with false.
      rewrite andb_false_r. reflexivity.
    + change (in_list "--continuous" ["-a"; "--appliance"]) with false.
      rewrite andb_false_r. reflexivity.
  - intro H. simpl in H. unfold main.
    destruct H as [<- | [<- | []]]; reflexivity.
  - intro H. unfold main. cbn [nth length].
    assert (Ha : in_list flag ["-a"; "--appliance"] = false).
    { unfold in_list. cbn [existsb].
      destruct (String.eqb_spec flag "-a") as [-> | _];
        [exfalso; apply H; simpl; tauto |].
      destruct (String.eqb_spec flag "--appliance") as [-> | _];
        [exfalso; apply H; simpl; tauto | reflexivity]. }
    assert (Hc : in_list flag ["-c"; "--continuous"] = false).
    { unfold in_list. cbn [existsb].
      destruct (String.eqb_spec flag "-c") as [-> | _];
        [exfalso; apply H; simpl; tauto |].
      destruct (String.eqb_spec flag "--continuous") as [-> | _];
        [exfalso; apply H; simpl; tauto | reflexivity]. }
    rewrite Ha, Hc, !andb_false_r. reflexivity.
Qed.

Lemma main_mode_selection_witness :
  In "-c" ["-c"; "--continuous"] /\
  In "-a" ["-a"; "--appliance"] /\
  ~ In "--help" ["-a"; "--appliance"; "-c"; "--continuous"] /\
  main healthy 1 ["relay_switcher.py"; "-c"] = (print_header ;; continuous_mode healthy 1) /\
  main healthy 1 ["relay_switcher.py"; "-a"] = main healthy 1 ["relay_switcher.py"] /\
  main healthy 1 ["relay_switcher.py"; "--help"] = main healthy 1 ["relay_switcher.py"].
Proof.
  assert (H1 : In "-c" ["-c"; "--continuous"]) by (simpl; tauto).
  assert (H2 : In "-a" ["-a"; "--appliance"]) by (simpl; tauto).
  assert (H3 : ~ In "--help" ["-a"; "--appliance"; "-c"; "--continuous"])
    by (simpl; intuition discriminate).
  split; [exact H1 | split; [exact H2 | split; [exact H3 |]]].
  split; [| split].
  - exact (proj1 (main_mode_selection healthy 1 "relay_switcher.py" "-c" []) H1).
  - exact (proj1 (proj2 (main_mode_selection healthy 1 "relay_switcher.py" "-a" [])) H2).
  - exact (proj2 (proj2 (main_mode_selection healthy 1 "relay_switcher.py" "--help" [])) H3).
Defined.

Lemma lower_ascii_idempotent (c : ascii) : lower_ascii (lower_ascii c) = lower_ascii c.
Proof.
  destruct c as [[|] [|] [|] [|] [|] [|] [|] [|]]; reflexivity.
Qed.

Lemma lower_ascii_stays_ascii (c : ascii) :
  (nat_of_ascii (lower_ascii c) <? 128)%nat = (nat_of_ascii c <? 128)%nat.
Proof.
  destruct c as [[|] [|] [|] [|] [|] [|] [|] [|]]; reflexivity.
Qed.

Lemma fold_ascii_idempotent (s : string) : fold_ascii (fold_ascii s) = fold_ascii s.
Proof.
  induction s as [| c s IH]; [reflexivity |].
  cbn [fold_ascii]. rewrite lower_ascii_idempotent, IH. reflexivity.
Qed.

Lemma is_ascii_fold_ascii (s : string) : is_ascii (fold_ascii s) = is_ascii s.
Proof.
  induction s as [| c s IH]; [reflexivity |].
  cbn [fold_ascii is_ascii]. rewrite lower_ascii_stays_ascii, IH. reflexivity.
Qed.

Lemma lower_idempotent_on_ascii (w : World) (s : string) :
  is_ascii s = true -> lower w (lower w s) = lower w s.
Proof.
  intro H. rewrite (lower_of_ascii w s H).
  rewrite lower_of_ascii by (rewrite is_ascii_fold_ascii; exact H).
  apply fold_ascii_idempotent.
Qed.

(** X13. The matching of the appliance argument, characterised: the
    argument selects a name exactly when that name is configured and the
    two agree once lowered by [str.lower], so the selected name is always a
    configured one, whatever the spelling; no name is selected exactly when
    no configured name agrees.  For an all-ASCII argument the selection
    does not depend on the interpreter's case tables, and the argument and
    its lowered form select the same. *)
Theorem match_appliance_characterised :
  forall (w : World) (given : string),
    (forall app, match_appliance w given = Some app <->
                 In app APPLIANCES /\ lower w app = lower w given) /\
    (match_appliance w given = None <->
     forall app, In app APPLIANCES -> lower w app <> lower w given) /\
    (is_ascii given = true ->
     match_appliance w (lower w given) = match_appliance w given /\
     forall w', match_appliance w' given = match_appliance w given).
Proof.
  intros w given. split; [| split].
  - intro app. split.
    + apply match_appliance_some.
    + intros [Hin Hl]. apply match_appliance_lower; [exact Hin | now symmetry].
  - split.
    + intros Hnone app Hin Hl.
      rewrite (match_appliance_lower w given app Hin (eq_sym Hl)) in Hnone. discriminate.
    + intro Hall. apply match_appliance_none. intros app Hin Hl.
      exact (Hall app Hin (eq_sym Hl)).
  - intro Hascii. split.
    + unfold match_appliance. rewrite (lower_idempotent_on_ascii w given Hascii).
      reflexivity.
    + intro w'. unfold match_appliance.
      rewrite (lower_of_ascii w given Hascii), (lower_of_ascii w' given Hascii).
      reflexivity.
Qed.

(** ** One command, one request *)

(** X14. [send_control_command] makes exactly one request whatever comes
    back: it posts the payload it was given once, never retries, never
    waits and never polls the status; and an operator interrupt during the
    request is not held back by its [except Exception] but leaves the
    function as [KeyboardInterrupt]. *)
Theorem send_control_command_one_request :
  forall (w : World) (p : payload) (d : string) (s : store),
    let run := send_control_command w p d s in
    controls (trace run) = [(p, post_reply w (posts s))] /\
    polls (trace run) = [] /\
    waits (trace run) = [] /\
    posts (final run) = S (posts s) /\
    (result run = Raise KeyboardInterrupt <->
     post_reply w (posts s) = RaisesKeyboardInterrupt) /\
    (post_reply w (posts s) <> RaisesKeyboardInterrupt ->
     result run = Ret (send_ok (post_reply w (posts s)))).
Proof.
  intros w p d s run. subst run.
  rewrite controls_send, polls_send, waits_send, final_send, result_send.
  repeat split; try reflexivity;
    destruct (post_reply w (posts s)) as [code body | | | msg |];
    try reflexivity; try discriminate; try (intro H; contradiction H; reflexivity).
Qed.

(** ** A temperature that is no number *)



(** ** Instances *)

Lemma get_status_always_returns_witness :
  exists v,
    result (get_status healthy init) = Ret v /\
    trace (get_status healthy init) = [Status (get_reply healthy (gets init))] /\
    v = sample_status.
Proof.
  destruct (get_status_always_returns healthy init) as [v [Hr [Ht [_ [_ [_ Hd]]]]]].
  exists v. split; [exact Hr | split; [exact Ht |]].
  apply Hd. reflexivity.
Defined.

Lemma match_appliance_characterised_witness :
  (In "HangOnFilter" APPLIANCES /\
   lower healthy "HangOnFilter" = lower healthy "hangonFILTER") /\
  is_ascii "hangonFILTER" = true /\
  match_appliance healthy "hangonFILTER" = Some "HangOnFilter" /\
  match_appliance healthy (lower healthy "hangonFILTER")
  = match_appliance healthy "hangonFILTER" /\
  match_appliance unreachable "hangonFILTER" = match_appliance healthy "hangonFILTER".
Proof.
  assert (H : In "HangOnFilter" APPLIANCES /\
              lower healthy "HangOnFilter" = lower healthy "hangonFILTER").
  { split; [simpl; tauto | reflexivity]. }
  assert (H' : is_ascii "hangonFILTER" = true) by reflexivity.
  destruct (match_appliance_characterised healthy "hangonFILTER") as [Hsome [_ Hlow]].
  split; [exact H | split; [exact H' | split; [| split]]].
  - apply (proj2 (Hsome "HangOnFilter")). exact H.
  - exact (proj1 (Hlow H')).
  - exact (proj2 (Hlow H') unreachable).
Defined.

Lemma send_control_command_one_request_witness :
  post_reply refusing (posts init) <> RaisesKeyboardInterrupt /\
  result (send_control_command refusing all_off_payload "All OFF" init) = Ret false /\
  controls (trace (send_control_command refusing all_off_payload "All OFF" init))
    = [(all_off_payload, Response 500 "Internal Server Error")].
Proof.
  assert (H : post_reply refusing (posts init) <> RaisesKeyboardInterrupt)
    by (simpl; discriminate).
  destruct (send_control_command_one_request refusing all_off_payload "All OFF" init)
    as [Hc [_ [_ [_ [_ Hr]]]]].
  split; [exact H | split; [exact (Hr H) | exact Hc]].
Defined.
